(** * Batch generators of mtg/ml/generator.py

    A shallow embedding of the three Keras sequences of the module
    ([MTGDataGenerator], [DraftGenerator], [DeckGenerator]) and of
    [create_train_and_val_gens], followed by the properties of the
    specification that were checked against them.

    Conventions of the embedding.
    - A Python call either returns or raises: [result A] is [exn + A].
    - pandas frames are kept row-major. Every column the generators read as
      integers (card counts, ids, positions, picks) is a column of [Z];
      the one float column, [ml_weights], is kept apart as an optional
      column of rationals, since no prefix used by the two concrete
      generators can match its label.
    - Float division follows IEEE for its special values ([x/0] is an
      infinity, [0/0] is NaN, NaN compares false) and is exact otherwise:
      finite values are rationals ([Qc]), rounding is not modelled.
    - numpy's global random state is an explicit stream of raw outcomes
      that every drawing function consumes and hands back. *)

From Stdlib Require Import ZArith QArith Qcanon String List Lia.
From stdpp Require Import gmap strings list numbers sorting.

Open Scope string_scope.
Open Scope Z_scope.

(** ** Python results *)

Inductive exn :=
| AttributeError | KeyError | IndexError | TypeError | ValueError
| ZeroDivisionError | NotImplementedError.

Definition result (A : Type) : Type := (exn + A)%type.

Definition raise {A} (e : exn) : result A := inl e.
Definition ret {A} (a : A) : result A := inr a.

Definition bind {A B} (m : result A) (k : A → result B) : result B :=
  match m with
  | inl e => inl e
  | inr a => k a
  end.

Notation "'let*' x := m 'in' k" := (bind m (fun x => k))
  (at level 10, x pattern, m at level 100, k at level 200).

Fixpoint mapM {A B} (f : A → result B) (l : list A) : result (list B) :=
  match l with
  | [] => ret []
  | x :: xs => let* y := f x in let* ys := mapM f xs in ret (y :: ys)
  end.

(** [a // b] on Python integers: floor division, [ZeroDivisionError] on a
    zero divisor.  [Z.div] rounds toward minus infinity like Python does. *)
Definition floordiv (a b : Z) : result Z :=
  if b =? 0 then raise ZeroDivisionError else ret (a / b).

(** [l[start:stop]] with Python's treatment of negative and out-of-range
    bounds. *)
Definition slice_bound (n i : Z) : Z :=
  if i <? 0 then Z.max 0 (i + n) else Z.min i n.

Definition py_slice {A} (l : list A) (start stop : Z) : list A :=
  let n := Z.of_nat (length l) in
  let lo := slice_bound n start in
  let hi := slice_bound n stop in
  take (Z.to_nat (hi - lo)) (drop (Z.to_nat lo) l).

(** [a[indices]] for an integer index array (indices are never negative
    here: they come from [np.arange]). *)
Definition gather {A} (l : list A) (indices : list nat) : result (list A) :=
  mapM (fun i => match l !! i with
                 | Some x => ret x
                 | None => raise IndexError
                 end) indices.

(** ** Floats *)

Inductive npfloat := Fin (q : Qc) | PInf | NInf | NaN.

Definition fadd (a b : npfloat) : npfloat :=
  match a, b with
  | NaN, _ | _, NaN => NaN
  | PInf, NInf | NInf, PInf => NaN
  | PInf, _ | _, PInf => PInf
  | NInf, _ | _, NInf => NInf
  | Fin x, Fin y => Fin (x + y)%Qc
  end.

(** true division of two finite numbers, as numpy does it (a warning, never
    an exception, on a zero divisor) *)
Definition fdiv (x s : Qc) : npfloat :=
  if decide (s = 0%Qc) then
    if decide (x = 0%Qc) then NaN
    else if decide (0 < x)%Qc then PInf else NInf
  else Fin (x / s)%Qc.

(** [r < x] for a finite [r] *)
Definition flt (r : Qc) (x : npfloat) : bool :=
  match x with
  | Fin q => bool_decide (r < q)%Qc
  | PInf => true
  | NInf | NaN => false
  end.

Definition fsum (l : list npfloat) : npfloat := foldl fadd (Fin 0%Qc) l.

Definition Qc_sum (l : list Qc) : Qc := foldl Qcplus 0%Qc l.
Definition Z_sum (l : list Z) : Z := foldl Z.add 0 l.

(** [a.astype(np.int32)]: two's complement wrap-around *)
Definition wrap32 (z : Z) : Z := (z + 2 ^ 31) mod 2 ^ 32 - 2 ^ 31.

(** ** The random state

    A stream of raw outcomes; [draw] pops the next one. *)

Definition rng := nat → N.

Definition draw (s : rng) : N * rng := (s 0%nat, fun n => s (S n)).

(** a bounded draw in [[0, i]] *)
Definition random_interval (i : nat) (s : rng) : nat * rng :=
  let '(x, s) := draw s in (N.to_nat (x mod N.of_nat (S i)), s).

(** a double in [[0, 1)]: 53 random bits over [2^53] *)
Definition random_double (s : rng) : Qc * rng :=
  let '(x, s) := draw s in
  (Q2Qc (Z.of_N (x mod 2 ^ 53) # 2 ^ 53), s).

(** [np.random.rand(k, 1)]: one double per row *)
Fixpoint rand (k : nat) (s : rng) : list Qc * rng :=
  match k with
  | O => ([], s)
  | S k => let '(r, s) := random_double s in
           let '(rs, s) := rand k s in (r :: rs, s)
  end.

Definition swap {A} (l : list A) (i j : nat) : list A :=
  match l !! i, l !! j with
  | Some x, Some y => <[i := y]> (<[j := x]> l)
  | _, _ => l
  end.

(** [np.random.shuffle] on a one-dimensional array: Fisher-Yates from the
    last position down to position 1.  [shuffle_from i] performs the steps
    for positions [i, i-1, ..., 1]. *)
Fixpoint shuffle_from {A} (i : nat) (l : list A) (s : rng) : list A * rng :=
  match i with
  | O => (l, s)
  | S i' => let '(j, s) := random_interval i s in
            shuffle_from i' (swap l i j) s
  end.

Definition np_shuffle {A} (l : list A) (s : rng) : list A * rng :=
  shuffle_from (pred (length l)) l s.

(** ** Strings *)

(** [x in col] *)
Fixpoint str_in (x col : string) : bool :=
  String.prefix x col ||
  match col with
  | EmptyString => false
  | String _ rest => str_in x rest
  end.

Definition startswith (col p : string) : bool := String.prefix p col.

Definition basics : list string :=
  ["plains"; "island"; "swamp"; "mountain"; "forest"].

(** ** Tables *)

(** The card table: one row per card, columns [idx] and [name]. *)
Record Card := mkCard { idx : Z; name : string }.

(** The dataset.  [values] is row-major and aligned with [columns]; column
    labels are distinct.  [ml_weights] is [Some] exactly when the frame has
    a column of that label ('ml_weights' in data.columns). *)
Record DataFrame := mkFrame {
  columns : list string;
  values : list (list Z);
  ml_weights : option (list Qc)
}.

(** [data.shape[0]] *)
Definition n_rows (data : DataFrame) : nat := length (values data).

(** the position of a label among the column labels *)
Fixpoint col_index (c : string) (cols : list string) : option nat :=
  match cols with
  | [] => None
  | c' :: cols => if String.eqb c c' then Some O else S <$> col_index c cols
  end.

(** [data[label]] for a single label *)
Definition column (data : DataFrame) (label : string) : result (list Z) :=
  match col_index label (columns data) with
  | None => raise KeyError
  | Some i => ret (map (fun row => nth i row 0) (values data))
  end.

(** the entries of one row that sit under the labels satisfying [p] *)
Fixpoint select_row (p : string → bool) (cols : list string) (row : list Z)
  : list Z :=
  match cols, row with
  | c :: cols, x :: row =>
      if p c then x :: select_row p cols row else select_row p cols row
  | _, _ => []
  end.

(** A two-dimensional numpy array: its second dimension and its rows. *)
Record ndarray := mkArray { ncols : nat; rows : list (list Z) }.

(** [data[cols].values] where [cols] are the labels satisfying [p] *)
Definition select_values (p : string → bool) (data : DataFrame) : ndarray :=
  {| ncols := length (filter (fun c => p c = true) (columns data));
     rows := map (select_row p (columns data)) (values data) |}.

(** A frame after [set_index(["draft_id", "position"])]: the two key
    columns have left the columns and label the rows. *)
Record IndexedFrame := mkIndexed {
  ikeys : list (Z * Z);
  icolumns : list string;
  ivalues : list (list Z)
}.

(** A column of such a frame: a pandas Series with the same row labels. *)
Record Series := mkSeries { skeys : list (Z * Z); svalues : list Z }.

(** What [setattr(self, prefix, ...)] can store. *)
Inductive attr :=
| Array (a : ndarray)
| Frame (f : IndexedFrame).

(** [series.unique()]: distinct values in order of first appearance *)
Fixpoint unique (l : list Z) : list Z :=
  match l with
  | [] => []
  | x :: xs => x :: filter (fun y => y ≠ x) (unique xs)
  end.

(** [series.max()]; [None] stands for the NaN of an empty series *)
Definition series_max (l : list Z) : option Z :=
  match l with
  | [] => None
  | x :: xs => Some (foldl Z.max x xs)
  end.

(** ** The card vocabulary *)

Fixpoint insert_by_idx (c : Card) (l : list Card) : list Card :=
  match l with
  | [] => [c]
  | c' :: l' => if idx c <=? idx c' then c :: l else c' :: insert_by_idx c l'
  end.

(** [cards.sort_values(by='idx', ascending=True)]; rows with equal [idx],
    which a card table does not have, keep their order here *)
Definition sort_values (cards : list Card) : list Card :=
  foldr insert_by_idx [] cards.

(** Lines 18 and 22-24 of [__init__]: sort, then drop the five reserved
    rows and renumber when basics are excluded. *)
Definition prepare_cards (cards : list Card) (exclude_basics : bool)
  : list Card :=
  let sorted := sort_values cards in
  if exclude_basics then
    map (fun c => {| idx := idx c - 5; name := name c |}) (drop 5 sorted)
  else sorted.

(** ** MTGDataGenerator *)

Record MTGDataGenerator := mkGen {
  cards : list Card;
  card_col_prefixes : list string;
  exclude_basics : bool;
  store_basics : bool;
  batch_size : Z;
  shuffle : bool;
  to_fit : bool;
  n_cards : nat;
  attrs : gmap string attr;       (* the attributes created by setattr *)
  weights : option (list Qc);
  size : nat;
  indices : list nat
}.

(** the column filter of line 64 (and 129) *)
Definition keep_col (prefix : string) (exclude_cards : list string)
  (col : string) : bool :=
  startswith col (prefix +:+ "_") &&
  negb (existsb (fun x => str_in x col) exclude_cards).

(** the column filter of line 67 (and 132) *)
Definition basic_col (prefix : string) (col : string) : bool :=
  existsb (fun x => String.eqb (prefix +:+ "_" +:+ x) col) basics.

Definition exclude_cards (exclude_basics : bool) : list string :=
  if exclude_basics then basics else [].

(** Names the object already uses when [generate_global_data] runs, or
    calls through [self] later: [setattr] with one of them would overwrite
    a field or shadow a method. *)
Definition reserved_names : list string :=
  ["cards"; "card_col_prefixes"; "exclude_basics"; "store_basics";
   "batch_size"; "shuffle"; "to_fit"; "n_cards"; "reset_indices";
   "on_epoch_end"; "generate_data"; "card_name_to_idx"; "card_idx_to_name"].

(** A prefix whose attributes collide with none of these names and which
    does not select the weight column. *)
Definition plain_prefix (p : string) : Prop :=
  (p ∉ reserved_names) ∧ ((p +:+ "_basics") ∉ reserved_names) ∧
  (startswith "ml_weights" (p +:+ "_") = false).

(** One turn of the loop over the prefixes in [generate_global_data]. *)
Definition store_prefix (eb sb : bool) (data : DataFrame)
  (a : gmap string attr) (prefix : string) : gmap string attr :=
  let kept := select_values (keep_col prefix (exclude_cards eb)) data in
  let a := <[prefix := Array kept]> a in
  if sb then
    <[prefix +:+ "_basics" := Array (select_values (basic_col prefix) data)]> a
  else a.

(** [MTGDataGenerator.generate_global_data]: the attributes it creates and
    the weights.  ([all_cards] is never read again and is not kept;
    [card_col_prefixes[0]] raises on an empty prefix list.) *)
Definition generate_global_data (prefixes : list string) (eb sb : bool)
  (data : DataFrame) : result (gmap string attr * option (list Qc)) :=
  match prefixes with
  | [] => raise IndexError
  | _ => ret (foldl (store_prefix eb sb data) ∅ prefixes, ml_weights data)
  end.

(** [reset_indices]: a fresh [arange], shuffled in place when asked. *)
Definition reset_indices (g : MTGDataGenerator) (s : rng)
  : MTGDataGenerator * rng :=
  let fresh := seq 0 (size g) in
  let '(ix, s) := if shuffle g then np_shuffle fresh s else (fresh, s) in
  (mkGen (cards g) (card_col_prefixes g) (exclude_basics g) (store_basics g)
         (batch_size g) (shuffle g) (to_fit g) (n_cards g) (attrs g)
         (weights g) (size g) ix, s).

Definition on_epoch_end (g : MTGDataGenerator) (s : rng)
  : MTGDataGenerator * rng := reset_indices g s.

(** [__len__] *)
Definition len (g : MTGDataGenerator) : result Z :=
  floordiv (Z.of_nat (size g)) (batch_size g).

(** [card_name_to_idx]: the first row of the stored table with that name;
    [.iloc[0]] raises on an empty selection. *)
Definition card_name_to_idx (g : MTGDataGenerator) (card_name : string)
  (exclude_basics : bool) : result Z :=
  match filter (fun c => name c = card_name) (cards g) with
  | [] => raise IndexError
  | c :: _ => ret (idx c)
  end.

Definition card_idx_to_name (g : MTGDataGenerator) (card_idx : Z)
  (exclude_basics : bool) : result string :=
  match filter (fun c => idx c = card_idx) (cards g) with
  | [] => raise IndexError
  | c :: _ => ret (name c)
  end.

(** The part of [__init__] that every class shares, with the class's own
    [generate_global_data] passed in as [ggd] (it is called through
    [self]). *)
Definition init_with (ggd : result (gmap string attr * option (list Qc)))
  (data : DataFrame) (cards : list Card) (card_col_prefixes : list string)
  (batch_size : Z) (shuffle to_fit exclude_basics store_basics : bool)
  (s : rng) : result (MTGDataGenerator * rng) :=
  let cards := prepare_cards cards exclude_basics in
  let* (a, w) := ggd in
  ret (reset_indices
         (mkGen cards card_col_prefixes exclude_basics store_basics
                batch_size shuffle to_fit (length cards) a w
                (n_rows data) []) s).

(** [MTGDataGenerator(data, cards, card_col_prefixes, ...)].  The
    attributes named after the prefixes are kept in [attrs], apart from the
    fixed fields; see [plain_prefix] for the prefixes for which this is
    exact. *)
Definition MTGDataGenerator_init (data : DataFrame) (cards : list Card)
  (card_col_prefixes : list string) (batch_size : Z)
  (shuffle to_fit exclude_basics store_basics : bool) (s : rng)
  : result (MTGDataGenerator * rng) :=
  init_with (generate_global_data card_col_prefixes exclude_basics store_basics data)
    data cards card_col_prefixes batch_size shuffle to_fit exclude_basics
    store_basics s.

(** ** Batches

    [generate_data] is what a class must supply; [__getitem__] and the
    iteration protocol of [keras.utils.Sequence] are written once on top
    of it. *)

Class Generator (G X Y : Type) := {
  base : G → MTGDataGenerator;
  generate_data :
    G → list nat → rng → result (X * Y * option (list npfloat) * rng)
}.

Inductive batch (X Y : Type) :=
| Fit (x : X) (y : Y) (w : option (list npfloat))
| Predict (x : X).
Arguments Fit {X Y} x y w.
Arguments Predict {X Y} x.

(** the index slice of [__getitem__] *)
Definition batch_indices (g : MTGDataGenerator) (batch_number : Z) : list nat :=
  py_slice (indices g) (batch_number * batch_size g)
           ((batch_number + 1) * batch_size g).

(** [__getitem__] *)
Definition getitem `{Generator G X Y} (g : G) (batch_number : Z) (s : rng)
  : result (batch X Y * rng) :=
  let* (X_, y, w, s) := generate_data g (batch_indices (base g) batch_number) s in
  ret (if to_fit (base g) then Fit X_ y w else Predict X_, s).

(** [Sequence.__iter__]: [for i in range(len(self)): yield self[i]].
    [yield_from g n i s] lists what is yielded for the batch numbers
    [i, i+1, ..., i+n-1]; the iteration stops at the first exception. *)
Fixpoint yield_from `{Generator G X Y} (g : G) (n : nat) (i : Z) (s : rng)
  : list (batch X Y) :=
  match n with
  | O => []
  | S n => match getitem g i s with
           | inl _ => []
           | inr (b, s) => b :: yield_from g n (i + 1) s
           end
  end.

Definition iter_batches `{Generator G X Y} (g : G) (s : rng)
  : result (list (batch X Y)) :=
  let* n := len (base g) in
  ret (yield_from g (Z.to_nat n) 0 s).

(** Sample weights of a batch: [weights[indices] / weights[indices].sum()].
    In the deck generator [weights] is an array.  In the draft generator it
    is a Series labelled by [(draft_id, position)], draft ids being opaque
    labels ([Z] stands for them): an integer array then indexes it by
    position, like the array. *)
Definition batch_weights (w : option (list Qc)) (indices : list nat)
  : result (option (list npfloat)) :=
  match w with
  | None => ret None
  | Some w =>
      let* sl := gather w indices in
      ret (Some (map (fun x => fdiv x (Qc_sum sl)) sl))
  end.

(** The base class: [generate_data] raises. *)
#[export] Instance MTGDataGenerator_Generator
  : Generator MTGDataGenerator unit unit := {|
  base := fun g => g;
  generate_data := fun _ _ _ => raise NotImplementedError
|}.

(** ** DraftGenerator *)

Record DraftGenerator := mkDraft {
  draft_base : MTGDataGenerator;
  draft_ids : list Z;
  t : option Z;                 (* [None]: the NaN of an empty frame *)
  pick : Series;
  position : Series
}.

Definition is_key (c : string) : bool :=
  String.eqb c "draft_id" || String.eqb c "position".

(** [data.set_index(["draft_id", "position"])] *)
Definition set_index (data : DataFrame) : result IndexedFrame :=
  let* d := column data "draft_id" in
  let* p := column data "position" in
  ret {| ikeys := zip d p;
         icolumns := filter (fun c => is_key c = false) (columns data);
         ivalues := map (select_row (fun c => negb (is_key c)) (columns data))
                        (values data) |}.

(** [frame[cols]] where [cols] are the labels satisfying [p] *)
Definition iselect (p : string → bool) (f : IndexedFrame) : IndexedFrame :=
  {| ikeys := ikeys f;
     icolumns := filter (fun c => p c = true) (icolumns f);
     ivalues := map (select_row p (icolumns f)) (ivalues f) |}.

(** [frame[label]] for a single label *)
Definition icolumn (f : IndexedFrame) (label : string) : result Series :=
  match col_index label (icolumns f) with
  | None => raise KeyError
  | Some i => ret {| skeys := ikeys f;
                     svalues := map (fun row => nth i row 0) (ivalues f) |}
  end.

Definition store_prefix_draft (eb sb : bool) (f : IndexedFrame)
  (a : gmap string attr) (prefix : string) : gmap string attr :=
  let a := <[prefix := Frame (iselect (keep_col prefix (exclude_cards eb)) f)]> a in
  if sb then <[prefix +:+ "_basics" := Frame (iselect (basic_col prefix) f)]> a
  else a.

Definition draft_prefixes : list string := ["pack_card"; "pool"].

(** [DraftGenerator.generate_global_data].  The linear position multiplies
    by [max(pick_number) + 1]; on an empty frame that maximum is NaN and
    the product an empty series, which the default below reproduces. *)
Definition draft_generate_global_data (eb sb : bool) (data : DataFrame)
  : result (gmap string attr * option (list Qc)
            * (list Z * option Z * Series * Series)) :=
  let* ids := column data "draft_id" in
  let* pos := column data "position" in
  let t := Z.succ <$> series_max pos in
  let* f := set_index data in
  let a := foldl (store_prefix_draft eb sb f) ∅ draft_prefixes in
  let* pk := icolumn f "pick" in
  let* pack_number := icolumn f "pack_number" in
  let* pick_number := icolumn f "pick_number" in
  let m := default 0 (series_max (svalues pick_number)) in
  let linear := zip_with (fun pn pi => pn * (m + 1) + pi)
                         (svalues pack_number) (svalues pick_number) in
  ret (a, ml_weights data,
       (unique ids, t, pk, {| skeys := ikeys f; svalues := linear |})).

(** [self.size = n] *)
Definition set_size (g : MTGDataGenerator) (n : nat) : MTGDataGenerator :=
  mkGen (cards g) (card_col_prefixes g) (exclude_basics g) (store_basics g)
        (batch_size g) (shuffle g) (to_fit g) (n_cards g) (attrs g)
        (weights g) n (indices g).

(** [DraftGenerator(data, cards, ...)]: the shared constructor, then the
    size is overwritten with the number of drafts and the indices are
    drawn again. *)
Definition DraftGenerator_init (data : DataFrame) (cards : list Card)
  (batch_size : Z) (shuffle to_fit exclude_basics store_basics : bool)
  (s : rng) : result (DraftGenerator * rng) :=
  let ggd := draft_generate_global_data exclude_basics store_basics data in
  let* (g, s) :=
    init_with (let* (aw, _) := ggd in ret aw) data cards draft_prefixes
              batch_size shuffle to_fit exclude_basics store_basics s in
  let* (_, (ids, t_, pk, ps)) := ggd in
  let (g, s) := reset_indices (set_size g (length ids)) s in
  ret (mkDraft g ids t_ pk ps, s).

(** A three-dimensional numpy array: its shape and its buffer in C order. *)
Record tensor (A : Type) := mkTensor { shape : nat * nat * nat; buf : list A }.
Arguments mkTensor {A} shape buf.
Arguments shape {A} _.
Arguments buf {A} _.

Definition astype {A B} (f : A → B) (x : tensor A) : tensor B :=
  mkTensor (shape x) (map f (buf x)).

(** [a.reshape(k, t, c)] on an array holding [flat].  A NaN dimension is a
    [TypeError]; [-1] asks numpy to infer the dimension; any other
    mismatch is a [ValueError]. *)
Definition reshape {A} (flat : list A) (k : nat) (t : option Z) (c : nat)
  : result (tensor A) :=
  match t with
  | None => raise TypeError
  | Some t =>
      if t =? -1 then
        if ((k * c =? 0) || negb (length flat mod (k * c) =? 0))%nat
        then raise ValueError
        else ret (mkTensor (k, (length flat / (k * c))%nat, c) flat)
      else if t <? 0 then raise ValueError
      else if (k * Z.to_nat t * c =? length flat)%nat
           then ret (mkTensor (k, Z.to_nat t, c) flat)
           else raise ValueError
  end.

(** [np.concatenate([a, b], axis=-1)] *)
Definition concatenate {A} (a b : tensor A) : result (tensor A) :=
  let '(k1, t1, c1) := shape a in
  let '(k2, t2, c2) := shape b in
  if ((k1 =? k2) && (t1 =? t2))%nat then
    ret (mkTensor (k1, t1, (c1 + c2)%nat)
           (flat_map (fun i => (take c1 (drop (i * c1) (buf a)) ++
                                take c2 (drop (i * c2) (buf b)))%list)
                     (seq 0 (k1 * t1))))
  else raise ValueError.

(** [x.loc[draft_ids]] on rows labelled by [(draft_id, position)]: for each
    id in turn, every row of that draft; an id without rows is a
    [KeyError]. *)
Definition loc {A} (keys : list (Z * Z)) (vals : list A) (ids : list Z)
  : result (list A) :=
  let* blocks :=
    mapM (fun d =>
            match filter (fun kv => fst (fst kv) = d) (zip keys vals) with
            | [] => raise KeyError
            | l => ret (map snd l)
            end) ids in
  ret (concat blocks).

Definition getattr_frame (g : MTGDataGenerator) (a : string)
  : result IndexedFrame :=
  match attrs g !! a with
  | Some (Frame f) => ret f
  | _ => raise AttributeError
  end.

Definition getattr_array (g : MTGDataGenerator) (a : string)
  : result ndarray :=
  match attrs g !! a with
  | Some (Array m) => ret m
  | _ => raise AttributeError
  end.

Definition draft_X : Type := tensor npfloat * tensor Z.

(** [DraftGenerator.generate_data] *)
Definition draft_generate_data (g : DraftGenerator) (indices : list nat)
  (s : rng) : result (draft_X * tensor Z * option (list npfloat) * rng) :=
  let* ids := gather (draft_ids g) indices in
  let k := length indices in
  let* pack_card := getattr_frame (draft_base g) "pack_card" in
  let c := length (icolumns pack_card) in
  let* pack_rows := loc (ikeys pack_card) (ivalues pack_card) ids in
  let* packs := reshape (concat pack_rows) k (t g) c in
  let* pool := getattr_frame (draft_base g) "pool" in
  let* pool_rows := loc (ikeys pool) (ivalues pool) ids in
  let* pools := reshape (concat pool_rows) k (t g) c in
  let* pick_rows := loc (skeys (pick g)) (svalues (pick g)) ids in
  let* picks := reshape pick_rows k (t g) 1 in
  let* position_rows := loc (skeys (position g)) (svalues (position g)) ids in
  let* positions := reshape position_rows k (t g) 1 in
  let* draft_info := concatenate packs pools in
  let* w := batch_weights (weights (draft_base g)) indices in
  ret ((astype (fun z => Fin (Qc_of_Z z)) draft_info, astype wrap32 positions),
       astype wrap32 picks, w, s).

#[export] Instance DraftGenerator_Generator
  : Generator DraftGenerator draft_X (tensor Z) := {|
  base := draft_base;
  generate_data := draft_generate_data
|}.

(** ** DeckGenerator *)

Record DeckGenerator := mkDeck { deck_base : MTGDataGenerator }.

Definition deck_prefixes : list string := ["deck"; "sideboard"].

(** [DeckGenerator(data, cards, ...)] *)
Definition DeckGenerator_init (data : DataFrame) (cards : list Card)
  (batch_size : Z) (shuffle to_fit exclude_basics store_basics : bool)
  (s : rng) : result (DeckGenerator * rng) :=
  let* (g, s) :=
    MTGDataGenerator_init data cards deck_prefixes batch_size shuffle to_fit
                          exclude_basics store_basics s in
  ret (mkDeck g, s).

(** [a[indices, :]] *)
Definition index_rows (a : ndarray) (indices : list nat) : result ndarray :=
  let* r := gather (rows a) indices in ret (mkArray (ncols a) r).

(** [a + b] for two arrays with the same number of rows: the second
    dimensions must agree unless one of them is 1, which is broadcast. *)
Definition np_add (a b : ndarray) : result ndarray :=
  if (ncols a =? ncols b)%nat then
    ret (mkArray (ncols a) (zip_with (zip_with Z.add) (rows a) (rows b)))
  else if (ncols b =? 1)%nat then
    ret (mkArray (ncols a)
           (zip_with (fun ra rb => map (fun x => x + nth 0 rb 0) ra)
                     (rows a) (rows b)))
  else if (ncols a =? 1)%nat then
    ret (mkArray (ncols b)
           (zip_with (fun ra rb => map (fun y => nth 0 ra 0 + y) rb)
                     (rows a) (rows b)))
  else raise ValueError.

(** [mtx / mtx.sum(1, keepdims=True)], one row *)
Definition probabilities (row : list Z) : list npfloat :=
  map (fun x => fdiv (Qc_of_Z x) (Qc_of_Z (Z_sum row))) row.

Fixpoint cumsum_from (acc : npfloat) (l : list npfloat) : list npfloat :=
  match l with
  | [] => []
  | x :: xs => fadd acc x :: cumsum_from (fadd acc x) xs
  end.

(** [p.cumsum()] along one row *)
Definition cumsum (l : list npfloat) : list npfloat :=
  match l with
  | [] => []
  | x :: xs => x :: cumsum_from x xs
  end.

Fixpoint first_true (l : list bool) : option nat :=
  match l with
  | [] => None
  | b :: l => if b then Some O else S <$> first_true l
  end.

(** [argmax] of a non-empty boolean row: the first [True], or 0 when there
    is none *)
Definition argmax (l : list bool) : nat := default O (first_true l).

(** the index sampled in one row for the draw [r] *)
Definition sample_row (r : Qc) (row : list Z) : nat :=
  argmax (map (flt r) (cumsum (probabilities row))).

(** [DeckGenerator.get_vectorized_sample]; [argmax] along an axis of
    length 0 is a [ValueError]. *)
Definition get_vectorized_sample (mtx : ndarray) (s : rng)
  : result (list nat * rng) :=
  let '(random_bin, s) := rand (length (rows mtx)) s in
  if (ncols mtx =? 0)%nat then raise ValueError
  else ret (zip_with sample_row random_bin (rows mtx), s).

(** [a = m.copy(); a[np.arange(k), anchors] = 0] *)
Definition zero_at (m : ndarray) (k : nat) (anchors : list nat)
  : result ndarray :=
  if (length (rows m) <? k)%nat then raise IndexError
  else if forallb (fun a => a <? ncols m)%nat (take k anchors) then
    ret (mkArray (ncols m)
           (zip_with (fun row a => <[a := 0]> row) (take k (rows m)) anchors
            ++ drop k (rows m))%list)
  else raise IndexError.

(** [DeckGenerator.sample_card_pairs] *)
Definition sample_card_pairs (decks sideboards : ndarray) (s : rng)
  : result (list nat * list nat * list nat * rng) :=
  let* (anchors, s) := get_vectorized_sample decks s in
  let k := length (rows decks) in
  let* decks_without_anchors := zero_at decks k anchors in
  let* sideboards_without_anchors := zero_at sideboards k anchors in
  let* (positive_samples, s) := get_vectorized_sample decks_without_anchors s in
  let* (negative_samples, s) := get_vectorized_sample sideboards_without_anchors s in
  ret (anchors, positive_samples, negative_samples, s).

Definition deck_X : Type := ndarray * list nat * list nat * list nat.
Definition deck_Y : Type := ndarray * ndarray.

(** [DeckGenerator.generate_data] *)
Definition deck_generate_data (g : DeckGenerator) (indices : list nat)
  (s : rng) : result (deck_X * deck_Y * option (list npfloat) * rng) :=
  let* deck := getattr_array (deck_base g) "deck" in
  let* decks := index_rows deck indices in
  let* sideboard := getattr_array (deck_base g) "sideboard" in
  let* sideboards := index_rows sideboard indices in
  let* deck_basics := getattr_array (deck_base g) "deck_basics" in
  let* basics_ := index_rows deck_basics indices in
  let* pools := np_add decks sideboards in
  let* w := batch_weights (weights (deck_base g)) indices in
  let* (anchor, pos, neg, s) := sample_card_pairs decks sideboards s in
  ret ((pools, anchor, pos, neg), (basics_, decks), w, s).

#[export] Instance DeckGenerator_Generator
  : Generator DeckGenerator deck_X deck_Y := {|
  base := deck_base;
  generate_data := deck_generate_data
|}.

(** ** create_train_and_val_gens *)

(** the classes that can be passed as [generator] *)
Inductive generator_class :=
| MTGDataGenerator_class | DraftGenerator_class | DeckGenerator_class.

Inductive any_generator :=
| BaseGen (g : MTGDataGenerator)
| DraftGen (g : DraftGenerator)
| DeckGen (g : DeckGenerator).

Definition any_base (g : any_generator) : MTGDataGenerator :=
  match g with
  | BaseGen g => g
  | DraftGen g => draft_base g
  | DeckGen g => deck_base g
  end.

Definition any_X : Type := (unit + draft_X + deck_X)%type.
Definition any_Y : Type := (unit + tensor Z + deck_Y)%type.

(** Whatever class was passed, the object answers the same protocol. *)
#[export] Instance any_generator_Generator
  : Generator any_generator any_X any_Y := {|
  base := any_base;
  generate_data := fun g indices s =>
    match g with
    | BaseGen g =>
        let* (x, y, w, s) := generate_data g indices s in
        ret (inl (inl x), inl (inl y), w, s)
    | DraftGen g =>
        let* (x, y, w, s) := generate_data g indices s in
        ret (inl (inr x), inl (inr y), w, s)
    | DeckGen g =>
        let* (x, y, w, s) := generate_data g indices s in
        ret (inr x, inr y, w, s)
    end
|}.

(** [generator(data, cards.copy(), batch_size=..., shuffle=..., to_fit=...,
    exclude_basics=...)].  The base class has a required positional
    parameter [card_col_prefixes] that this call does not pass. *)
Definition construct (cls : generator_class) (data : DataFrame)
  (cards : list Card) (batch_size : Z) (shuffle to_fit exclude_basics : bool)
  (s : rng) : result (any_generator * rng) :=
  match cls with
  | MTGDataGenerator_class => raise TypeError
  | DraftGenerator_class =>
      let* (g, s) := DraftGenerator_init data cards batch_size shuffle to_fit
                                         exclude_basics false s in
      ret (DraftGen g, s)
  | DeckGenerator_class =>
      let* (g, s) := DeckGenerator_init data cards batch_size shuffle to_fit
                                        exclude_basics false s in
      ret (DeckGen g, s)
  end.

(** [x[mask]] for a boolean mask *)
Fixpoint mask_select {A} (mask : list bool) (l : list A) : list A :=
  match mask, l with
  | b :: mask, x :: l => if b then x :: mask_select mask l else mask_select mask l
  | _, _ => []
  end.

(** [data[mask]]: the rows where the mask holds *)
Definition filter_rows (mask : list bool) (data : DataFrame) : DataFrame :=
  {| columns := columns data;
     values := mask_select mask (values data);
     ml_weights := mask_select mask <$> ml_weights data |}.

(** [int(n * p)]: truncation toward zero *)
Definition int_of_product (n : nat) (p : Qc) : Z :=
  let q := (Qc_of_Z (Z.of_nat n) * p)%Qc in
  Z.quot (Qnum q) (Z.pos (Qden q)).

(** [np.random.choice(idxs, n, replace=False)]: the first [n] entries of a
    random permutation of the positions *)
Definition choice (idxs : list Z) (n : Z) (s : rng) : result (list Z * rng) :=
  if (n <? 0) || (Z.of_nat (length idxs) <? n) then raise ValueError
  else
    let '(perm, s) := np_shuffle (seq 0 (length idxs)) s in
    let* chosen := gather idxs (take (Z.to_nat n) perm) in
    ret (chosen, s).

Section Factory.

(** The weighting utility of [mtg.ml.utils]: one weight per row. *)
Variable importance_weighting : DataFrame → list Qc.

Definition with_weights (data : DataFrame) : DataFrame :=
  {| columns := columns data;
     values := values data;
     ml_weights := Some (importance_weighting data) |}.

(** The split of lines 223-237.  Without [id_col] the row-level branch
    draws its sample and then indexes the frame with
    [data[train_idxs, :]], which pandas rejects. *)
Definition split (data : DataFrame) (id_col : option string) (train_p : Qc)
  (s : rng) : result (DataFrame * option DataFrame * rng) :=
  if decide (train_p < 1)%Qc then
    match id_col with
    | None =>
        let idxs := map Z.of_nat (seq 0 (n_rows data)) in
        let* _ := choice idxs (int_of_product (length idxs) train_p) s in
        raise TypeError
    | Some c =>
        let* ids := column data c in
        let idxs := unique ids in
        let* (train_idxs, s) :=
          choice idxs (int_of_product (length idxs) train_p) s in
        let isin := map (fun i => bool_decide (i ∈ train_idxs)) ids in
        ret (filter_rows isin data, Some (filter_rows (map negb isin) data), s)
    end
  else ret (data, None, s).

Definition create_train_and_val_gens (data : DataFrame) (cards : list Card)
  (id_col : option string) (train_p : Qc) (weights : bool)
  (train_batch_size : Z) (shuffle to_fit exclude_basics : bool)
  (generator : generator_class) (s : rng)
  : result (any_generator * option any_generator * rng) :=
  let data := if weights then with_weights data else data in
  let* (train_data, test_data, s) := split data id_col train_p s in
  let* (train_gen, s) :=
    construct generator train_data cards train_batch_size shuffle to_fit
              exclude_basics s in
  match test_data with
  | Some test_data =>
      let* n_train_batches := len (any_base train_gen) in
      let* val_batch_size :=
        floordiv (Z.of_nat (n_rows test_data)) n_train_batches in
      let* (val_gen, s) :=
        construct generator test_data cards val_batch_size shuffle to_fit
                  exclude_basics s in
      ret (train_gen, Some val_gen, s)
  | None => ret (train_gen, None, s)
  end.

End Factory.

(** ** Vocabulary of the statements *)

(** [constructed data cards bs sh tf eb sb cls g]: [g] is the shared part of
    a generator of class [cls] that its constructor returned for these
    arguments. *)
Inductive constructed (data : DataFrame) (cards0 : list Card) (bs : Z)
  (sh tf eb sb : bool) : generator_class → MTGDataGenerator → Prop :=
| constructed_base prefixes s g s' :
    Forall plain_prefix prefixes →
    MTGDataGenerator_init data cards0 prefixes bs sh tf eb sb s = inr (g, s') →
    constructed data cards0 bs sh tf eb sb MTGDataGenerator_class g
| constructed_draft s g s' :
    DraftGenerator_init data cards0 bs sh tf eb sb s = inr (g, s') →
    constructed data cards0 bs sh tf eb sb DraftGenerator_class (draft_base g)
| constructed_deck s g s' :
    DeckGenerator_init data cards0 bs sh tf eb sb s = inr (g, s') →
    constructed data cards0 bs sh tf eb sb DeckGenerator_class (deck_base g).

(** The total size as the specification words it: the number of rows, or
    for drafts the number of distinct draft ids. *)
Definition spec_total_size (cls : generator_class) (data : DataFrame)
  : result nat :=
  match cls with
  | DraftGenerator_class =>
      let* ids := column data "draft_id" in ret (length (unique ids))
  | _ => ret (n_rows data)
  end.

(** [n] successive epoch ends *)
Fixpoint epochs (n : nat) (g : MTGDataGenerator) (s : rng)
  : MTGDataGenerator * rng :=
  match n with
  | O => (g, s)
  | S n => let '(g, s) := on_epoch_end g s in epochs n g s
  end.

(** A rectangular frame with one weight per row. *)
Definition well_formed (data : DataFrame) : Prop :=
  Forall (fun row => length row = length (columns data)) (values data) ∧
  ∀ w, ml_weights data = Some w → length w = n_rows data.

(** A row with nonzero entries at two different positions. *)
Definition two_nonzero (row : list Z) : Prop :=
  ∃ j k x y, j ≠ k ∧ row !! j = Some x ∧ row !! k = Some y ∧ x ≠ 0 ∧ y ≠ 0.

(** The fields a constructor of any class leaves in the shared part. *)
Record established (cards0 : list Card) (bs : Z) (sh tf eb : bool)
  (g : MTGDataGenerator) : Prop := {
  est_cards : cards g = prepare_cards cards0 eb;
  est_batch_size : batch_size g = bs;
  est_shuffle : shuffle g = sh;
  est_to_fit : to_fit g = tf;
  est_perm : indices g ≡ₚ seq 0 (size g);
  est_identity : sh = false → indices g = seq 0 (size g)
}.

(** Values of a cumulative row: not a finite number; and the two among
    them that no draw is below. *)
Definition not_finite (x : npfloat) : Prop := ∀ q, x ≠ Fin q.
Definition never_above (x : npfloat) : Prop := x = NaN ∨ x = NInf.

(** The number of rows of the dataset labelled with draft id [d]. *)
Definition draft_rows (g : DraftGenerator) (d : Z) : nat :=
  length (filter (fun k => fst k = d) (skeys (pick g))).

(** [len(self.<a>.columns)] for a stored frame, the second dimension for a
    stored array *)
Definition attr_width (g : MTGDataGenerator) (a : string) : nat :=
  match attrs g !! a with
  | Some (Frame f) => length (icolumns f)
  | Some (Array m) => ncols m
  | None => O
  end.

(** A stream of raw outcomes used in the worked examples. *)
Definition stream0 : rng := fun n => (N.of_nat n * 7919 + 13)%N.

(** ** Worked inputs

    A vocabulary of eight cards (the five basics first, given out of order
    to exercise the sort), a deck dataset with one column per card and
    prefix, and a draft dataset of four drafts with two picks each over the
    three other cards. *)

Definition cards8 : list Card :=
  [mkCard 5 "bear"; mkCard 0 "plains"; mkCard 1 "island"; mkCard 2 "swamp";
   mkCard 3 "mountain"; mkCard 4 "forest"; mkCard 7 "elf"; mkCard 6 "goblin"].

Definition cards3 : list Card :=
  [mkCard 0 "bear"; mkCard 1 "goblin"; mkCard 2 "elf"].

Definition names8 : list string :=
  ["plains"; "island"; "swamp"; "mountain"; "forest"; "bear"; "goblin"; "elf"].

Definition card_columns (prefix : string) (names : list string) : list string :=
  map (fun n => prefix +:+ "_" +:+ n) names.

Definition deck_frame : DataFrame :=
  {| columns := (card_columns "deck" names8 ++ card_columns "sideboard" names8)%list;
     values := [ [7; 0; 0; 0; 0; 3; 0; 1;   0; 0; 0; 0; 0; 0; 2; 1];
                 [0; 8; 0; 0; 0; 1; 1; 1;   0; 1; 0; 0; 0; 1; 1; 0];
                 [0; 0; 9; 0; 0; 0; 2; 2;   0; 0; 0; 0; 0; 2; 0; 3];
                 [0; 0; 0; 6; 0; 4; 4; 0;   0; 0; 0; 0; 0; 1; 0; 1] ];
     ml_weights := Some [Q2Qc (1 # 2); Q2Qc (1 # 3); Q2Qc (1 # 6); 1%Qc] |}.

Definition draft_frame : DataFrame :=
  {| columns := (["draft_id"; "position"; "pick"; "pack_number"; "pick_number"]
                 ++ card_columns "pack_card" ["bear"; "goblin"; "elf"]
                 ++ card_columns "pool" ["bear"; "goblin"; "elf"])%list;
     values := [ [10; 0; 0; 0; 0;   1; 1; 1;   0; 0; 0];
                 [10; 1; 2; 0; 1;   0; 1; 1;   1; 0; 0];
                 [11; 0; 1; 0; 0;   1; 1; 0;   0; 0; 0];
                 [11; 1; 0; 0; 1;   1; 0; 1;   0; 1; 0];
                 [12; 0; 2; 0; 0;   0; 1; 1;   0; 0; 0];
                 [12; 1; 1; 0; 1;   1; 1; 0;   0; 0; 1];
                 [13; 0; 0; 0; 0;   1; 0; 1;   0; 0; 0];
                 [13; 1; 2; 0; 1;   0; 1; 1;   1; 0; 0] ];
     ml_weights := Some [Q2Qc (1 # 2); Q2Qc (1 # 4); Q2Qc (1 # 8); Q2Qc (1 # 8);
                         1%Qc; 1%Qc; 1%Qc; 1%Qc] |}.

(** A draft dataset that lacks the columns of one card of [cards3]. *)
Definition narrow_frame : DataFrame :=
  {| columns := (["draft_id"; "position"; "pick"; "pack_number"; "pick_number"]
                 ++ card_columns "pack_card" ["bear"; "goblin"]
                 ++ card_columns "pool" ["bear"; "goblin"])%list;
     values := [ [10; 0; 0; 0; 0;   1; 1;   0; 0];
                 [10; 1; 1; 0; 1;   0; 1;   1; 0] ];
     ml_weights := None |}.

(** A vocabulary in which a card other than the five basics carries the
    name of a basic land inside its own, and a draft dataset with one
    column per card and prefix. *)
Definition cards7 : list Card :=
  [mkCard 0 "plains"; mkCard 1 "island"; mkCard 2 "swamp";
   mkCard 3 "mountain"; mkCard 4 "forest"; mkCard 5 "bear";
   mkCard 6 "mountain goat"].

Definition names7 : list string :=
  ["plains"; "island"; "swamp"; "mountain"; "forest"; "bear"; "mountain goat"].

Definition goat_frame : DataFrame :=
  {| columns := (["draft_id"; "position"; "pick"; "pack_number"; "pick_number"]
                 ++ card_columns "pack_card" names7
                 ++ card_columns "pool" names7)%list;
     values := [ [10; 0; 5; 0; 0;   0; 0; 0; 0; 0; 1; 1;   0; 0; 0; 0; 0; 0; 0];
                 [10; 1; 6; 0; 1;   0; 0; 0; 0; 0; 0; 1;   0; 0; 0; 0; 0; 1; 0] ];
     ml_weights := None |}.

(** A deck dataset that has sideboard columns only. *)
Definition sideboard_only_frame : DataFrame :=
  {| columns := card_columns "sideboard" ["bear"; "goblin"; "elf"];
     values := [ [0; 2; 1]; [1; 1; 0] ];
     ml_weights := None |}.

(** A deck dataset with a grouping column: one row per deck, two decks of
    the same player among them. *)
Definition deck_id_frame : DataFrame :=
  {| columns := ("draft_id" :: card_columns "deck" ["bear"; "goblin"; "elf"]
                 ++ card_columns "sideboard" ["bear"; "goblin"; "elf"])%list;
     values := [ [10;   3; 0; 1;   0; 2; 1];
                 [11;   1; 1; 1;   1; 1; 0];
                 [12;   0; 2; 2;   2; 0; 3];
                 [12;   4; 4; 0;   1; 0; 1];
                 [13;   2; 0; 2;   0; 1; 1] ];
     ml_weights := None |}.

(** The columns [DraftGenerator.generate_global_data] reads by name. *)
Definition draft_required_columns : list string :=
  ["draft_id"; "position"; "pick"; "pack_number"; "pick_number"].

(** A draft dataset in which draft 11 has one row where [t] is 2. *)
Definition ragged_frame : DataFrame :=
  {| columns := (["draft_id"; "position"; "pick"; "pack_number"; "pick_number"]
                 ++ card_columns "pack_card" ["bear"; "goblin"]
                 ++ card_columns "pool" ["bear"; "goblin"])%list;
     values := [ [10; 0; 0; 0; 0;   1; 1;   0; 0];
                 [10; 1; 1; 0; 1;   0; 1;   1; 0];
                 [11; 0; 1; 0; 0;   1; 1;   0; 0] ];
     ml_weights := None |}.

(** The features of a batch, in fit mode or not. *)
Definition batch_X {X Y} (b : batch X Y) : X :=
  match b with
  | Fit x _ _ => x
  | Predict x => x
  end.

(** * Properties *)

(** ** Results *)

Lemma bind_inr {A B} (m : result A) (k : A → result B) b :
  bind m k = inr b → ∃ a, m = inr a ∧ k a = inr b.
Proof. destruct m as [e|a]; simpl; [discriminate | eauto]. Qed.

Ltac inv_bind H :=
  let a := fresh "a" in
  let Ha := fresh "Ha" in
  apply bind_inr in H; destruct H as (a & Ha & H).

Lemma mapM_length {A B} (f : A → result B) l r :
  mapM f l = inr r → length r = length l.
Proof.
  revert r; induction l as [|x l IH]; simpl; intros r H.
  - injection H as <-; reflexivity.
  - inv_bind H. inv_bind H. injection H as <-. simpl. f_equal. eauto.
Qed.

Lemma mapM_lookup {A B} (f : A → result B) l r i x :
  mapM f l = inr r → l !! i = Some x → ∃ y, r !! i = Some y ∧ f x = inr y.
Proof.
  revert r i; induction l as [|a l IH]; simpl; intros r i H Hi; [done|].
  inv_bind H. inv_bind H. injection H as <-.
  destruct i as [|i]; simpl in *.
  - injection Hi as <-. eauto.
  - eauto.
Qed.

Lemma mapM_total {A B} (f : A → result B) l :
  (∀ x, x ∈ l → ∃ y, f x = inr y) → ∃ r, mapM f l = inr r.
Proof.
  induction l as [|a l IH]; simpl; intros H; [by eexists|].
  destruct (H a) as [y Hy]; [left|]. rewrite Hy. simpl.
  destruct IH as [r Hr]; [intros; apply H; by right|].
  rewrite Hr. simpl. by eexists.
Qed.

Lemma gather_total {A} (l : list A) ix :
  (∀ i, i ∈ ix → (i < length l)%nat) → ∃ r, gather l ix = inr r.
Proof.
  intros H. apply mapM_total. intros i Hi.
  destruct (lookup_lt_is_Some_2 l i (H i Hi)) as [x ->]. by eexists.
Qed.

Lemma gather_length {A} (l : list A) ix r :
  gather l ix = inr r → length r = length ix.
Proof. apply mapM_length. Qed.

Lemma gather_elem_of {A} (l : list A) ix r x :
  gather l ix = inr r → x ∈ r → x ∈ l.
Proof.
  unfold gather. revert r; induction ix as [|i ix IH]; simpl; intros r H Hx.
  - injection H as <-. by apply elem_of_nil in Hx.
  - inv_bind H. inv_bind H. injection H as <-.
    apply elem_of_cons in Hx as [->|Hx]; [|eauto].
    destruct (l !! i) eqn:E; [|discriminate]. injection Ha as <-.
    by eapply list_elem_of_lookup_2.
Qed.

(** ** Slices *)

Lemma py_slice_elem_of {A} (l : list A) a b x : x ∈ py_slice l a b → x ∈ l.
Proof.
  unfold py_slice. intros H.
  apply subseteq_take in H. by apply subseteq_drop in H.
Qed.

(** ** Shuffling *)

Lemma insert_at_perm {A} (l : list A) j x y :
  l !! j = Some y → y :: <[j := x]> l ≡ₚ x :: l.
Proof.
  revert j; induction l as [|a l IH]; intros [|j] H; simpl in *; try done.
  - injection H as ->. apply perm_swap.
  - etransitivity; [apply perm_swap|]. rewrite (IH j H). apply perm_swap.
Qed.

Lemma swap_perm {A} (l : list A) i j : swap l i j ≡ₚ l.
Proof.
  unfold swap.
  destruct (l !! i) as [x|] eqn:Hi; [|reflexivity].
  destruct (l !! j) as [y|] eqn:Hj; [|reflexivity].
  revert i j Hi Hj; induction l as [|a l IH]; intros [|i] [|j] Hi Hj;
    simpl in *; try done.
  - injection Hi as ->. injection Hj as ->. reflexivity.
  - injection Hi as ->. by apply insert_at_perm.
  - injection Hj as ->. by apply insert_at_perm.
  - apply perm_skip. by apply IH.
Qed.

Lemma shuffle_from_perm {A} i (l : list A) s : (shuffle_from i l s).1 ≡ₚ l.
Proof.
  revert l s; induction i as [|i IH]; intros l s; simpl; [reflexivity|].
  destruct (random_interval (S i) s) as [j s1].
  rewrite IH. apply swap_perm.
Qed.

Lemma np_shuffle_perm {A} (l : list A) s : (np_shuffle l s).1 ≡ₚ l.
Proof. apply shuffle_from_perm. Qed.

(** ** What a constructor establishes *)

Lemma reset_indices_fields g s :
  let g' := (reset_indices g s).1 in
  cards g' = cards g ∧ batch_size g' = batch_size g ∧
  shuffle g' = shuffle g ∧ to_fit g' = to_fit g ∧ size g' = size g ∧
  attrs g' = attrs g ∧ weights g' = weights g ∧ n_cards g' = n_cards g.
Proof.
  unfold reset_indices.
  destruct (if shuffle g then _ else _) as [ix s1]. simpl. tauto.
Qed.

Lemma reset_indices_perm g s :
  indices (reset_indices g s).1 ≡ₚ seq 0 (size g).
Proof.
  unfold reset_indices. destruct (shuffle g).
  - pose proof (np_shuffle_perm (seq 0 (size g)) s) as H.
    destruct (np_shuffle _ s) as [ix s1]. exact H.
  - reflexivity.
Qed.

Lemma reset_indices_identity g s :
  shuffle g = false → indices (reset_indices g s).1 = seq 0 (size g).
Proof. unfold reset_indices. by intros ->. Qed.

Lemma init_with_established ggd data cards0 prefixes bs sh tf eb sb s g s' :
  init_with ggd data cards0 prefixes bs sh tf eb sb s = inr (g, s') →
  established cards0 bs sh tf eb g ∧ size g = n_rows data ∧
  ∃ a w, ggd = inr (a, w) ∧ attrs g = a ∧ weights g = w.
Proof.
  unfold init_with. intros H. inv_bind H. destruct a as [a w].
  injection H as H. set (g0 := mkGen _ _ _ _ _ _ _ _ _ _ _ _) in H.
  assert (g = (reset_indices g0 s).1) as -> by (by rewrite H).
  destruct (reset_indices_fields g0 s) as (?&?&?&?&?&?&?&?).
  split; [|split; [assumption|by exists a, w]].
  split; try assumption.
  - replace (size (reset_indices g0 s).1) with (size g0) by done.
    apply reset_indices_perm.
  - intros ->. replace (size (reset_indices g0 s).1) with (size g0) by done.
    by apply reset_indices_identity.
Qed.

Lemma draft_init_inv data cards0 bs sh tf eb sb s g s' :
  DraftGenerator_init data cards0 bs sh tf eb sb s = inr (g, s') →
  established cards0 bs sh tf eb (draft_base g) ∧
  ∃ a w ids t_ pk ps,
    draft_generate_global_data eb sb data = inr (a, w, (ids, t_, pk, ps)) ∧
    attrs (draft_base g) = a ∧ weights (draft_base g) = w ∧
    draft_ids g = ids ∧ t g = t_ ∧ pick g = pk ∧ position g = ps ∧
    size (draft_base g) = length ids.
Proof.
  unfold DraftGenerator_init. intros H. inv_bind H. destruct a as [g0 s0].
  apply init_with_established in Ha as (E & Hsz & a' & w' & Hg & Ha' & Hw').
  inv_bind H. destruct a as [[a w] [[[ids t_] pk] ps]].
  rewrite Ha in Hg. simpl in Hg. injection Hg as <- <-.
  set (g1 := set_size g0 (length ids)) in H.
  pose proof (reset_indices_fields g1 s0) as (?&?&?&?&?&?&?&?).
  pose proof (reset_indices_perm g1 s0) as Hp.
  pose proof (reset_indices_identity g1 s0) as Hi.
  destruct (reset_indices g1 s0) as [g2 s2]. injection H as <- <-.
  simpl in *. destruct E.
  split.
  - split; try congruence.
    intros ->. rewrite H4. apply Hi. congruence.
  - exists a, w, ids, t_, pk, ps. repeat split; congruence.
Qed.
(*
    + intros ->. rewrite H4. apply Hi. congruence.
*)

Lemma draft_ggd_ids eb sb data a w ids t_ pk ps :
  draft_generate_global_data eb sb data = inr (a, w, (ids, t_, pk, ps)) →
  ∃ col, column data "draft_id" = inr col ∧ ids = unique col.
Proof.
  unfold draft_generate_global_data. intros H.
  inv_bind H. inv_bind H. inv_bind H. inv_bind H. inv_bind H. inv_bind H.
  injection H as <- <- <- <- <- <-. eauto.
Qed.

Lemma deck_init_established data cards0 bs sh tf eb sb s g s' :
  DeckGenerator_init data cards0 bs sh tf eb sb s = inr (g, s') →
  established cards0 bs sh tf eb (deck_base g) ∧
  size (deck_base g) = n_rows data ∧
  attrs (deck_base g) = foldl (store_prefix eb sb data) ∅ deck_prefixes ∧
  weights (deck_base g) = ml_weights data.
Proof.
  unfold DeckGenerator_init, MTGDataGenerator_init. intros H. inv_bind H.
  destruct a as [g0 s0]. injection H as <- <-.
  apply init_with_established in Ha as (E & Hsz & a & w & Hg & Ha' & Hw').
  injection Hg as <- <-. simpl. done.
Qed.

Lemma constructed_established data cards0 bs sh tf eb sb cls g :
  constructed data cards0 bs sh tf eb sb cls g →
  established cards0 bs sh tf eb g.
Proof.
  intros [prefixes s g0 s' _ H | s g0 s' H | s g0 s' H].
  - by apply init_with_established in H as (E & _).
  - by apply draft_init_inv in H as (E & _).
  - by apply deck_init_established in H as (E & _).
Qed.

Lemma constructed_size data cards0 bs sh tf eb sb cls g :
  constructed data cards0 bs sh tf eb sb cls g →
  spec_total_size cls data = inr (size g).
Proof.
  intros [prefixes s g0 s' _ H | s g0 s' H | s g0 s' H]; simpl.
  - apply init_with_established in H as (_ & -> & _). done.
  - apply draft_init_inv in H as (_ & a & w & ids & t_ & pk & ps & H & R).
    destruct R as (_ & _ & _ & _ & _ & _ & ->).
    apply draft_ggd_ids in H as (col & -> & ->). done.
  - apply deck_init_established in H as (_ & -> & _). done.
Qed.

(** ** Epochs *)

Lemma epochs_invariant n g s :
  indices g ≡ₚ seq 0 (size g) →
  (shuffle g = false → indices g = seq 0 (size g)) →
  let g' := (epochs n g s).1 in
  size g' = size g ∧ indices g' ≡ₚ seq 0 (size g) ∧
  (shuffle g = false → indices g' = seq 0 (size g)).
Proof.
  revert g s; induction n as [|n IH]; intros g s Hp Hi; simpl; [done|].
  unfold on_epoch_end.
  pose proof (reset_indices_fields g s) as (_&_&Hsh&_&Hsz&_).
  pose proof (reset_indices_perm g s) as Hp1.
  pose proof (reset_indices_identity g s) as Hi1.
  destruct (reset_indices g s) as [g1 s1]. simpl in *.
  destruct (IH g1 s1) as (E1 & E2 & E3).
  - by rewrite Hsz.
  - rewrite Hsh, Hsz. exact Hi1.
  - rewrite Hsz, Hsh in *. done.
Qed.

(** C5. After construction and after every later epoch reset the stored
    indices are a permutation of [range(total_size)], whatever the random
    outcomes; without shuffling they are the identity ordering each time. *)
Theorem epoch_reset_is_permutation data cards0 bs sh tf eb sb cls g
  (Hc : constructed data cards0 bs sh tf eb sb cls g) (n : nat) (s : rng) :
  let g' := (epochs n g s).1 in
  size g' = size g ∧
  indices g' ≡ₚ seq 0 (size g) ∧
  (sh = false → indices g' = seq 0 (size g)).
Proof.
  destruct (constructed_established _ _ _ _ _ _ _ _ _ Hc) as [_ _ Hsh _ Hp Hi].
  rewrite <- Hsh in *. by apply epochs_invariant.
Qed.

(** ** Number of batches *)

Lemma yield_from_length `{Generator G X Y} (g : G) n i s :
  (length (yield_from g n i s) ≤ n)%nat.
Proof.
  revert i s; induction n as [|n IH]; intros i s; simpl; [lia|].
  destruct (getitem g i s) as [e|[b s1]]; simpl; [lia|].
  specialize (IH (i + 1) s1). lia.
Qed.

Lemma batch_indices_bound g b i :
  indices g ≡ₚ seq 0 (size g) → i ∈ batch_indices g b → (i < size g)%nat.
Proof.
  intros Hp Hi. apply py_slice_elem_of in Hi. rewrite Hp in Hi.
  apply elem_of_seq in Hi. lia.
Qed.

(** C1. For a generator of any class, [length()] is the floor of
    [total_size / batch_size], where [total_size] is the number of rows, or
    for the draft generator the number of distinct draft ids; batches index
    whole drafts, and one pass over the sequence yields no more than
    [length()] batches. *)
Theorem length_is_floor_of_total_size data cards0 bs sh tf eb sb cls g
  (Hc : constructed data cards0 bs sh tf eb sb cls g) (Hbs : bs ≠ 0) :
  ∃ total : nat,
    spec_total_size cls data = inr total ∧ size g = total ∧
    len g = inr (Z.of_nat total / bs) ∧
    (0 < bs → Z.of_nat total / bs * bs ≤ Z.of_nat total
              < (Z.of_nat total / bs + 1) * bs) ∧
    (∀ b i, i ∈ batch_indices g b → (i < total)%nat) ∧
    ∀ `(Generator G X Y) (gen : G) s,
      base gen = g →
      ∃ l, iter_batches gen s = inr l ∧
           (length l ≤ Z.to_nat (Z.of_nat total / bs))%nat.
Proof.
  pose proof (constructed_size _ _ _ _ _ _ _ _ _ Hc) as Hsz.
  destruct (constructed_established _ _ _ _ _ _ _ _ _ Hc) as [_ Hb _ _ Hp _].
  assert (Hlen : len g = inr (Z.of_nat (size g) / bs)).
  { unfold len, floordiv. rewrite Hb.
    destruct (Z.eqb_spec bs 0); [done|reflexivity]. }
  exists (size g). repeat split; try done.
  - pose proof (Z.mul_div_le (Z.of_nat (size g)) bs H). lia.
  - pose proof (Z.mul_succ_div_gt (Z.of_nat (size g)) bs H). lia.
  - intros b i. by apply batch_indices_bound.
  - intros G X Y HG gen s <-. unfold iter_batches. rewrite Hlen. simpl.
    eexists; split; [reflexivity|apply yield_from_length].
Qed.

(** ** The card vocabulary *)

(** C10. The [exclude_basics] argument of the two lookups changes nothing:
    both are computed on the vocabulary as the constructor filtered it. *)
Theorem lookup_ignores_exclude_basics data cards0 bs sh tf eb sb cls g
  (Hc : constructed data cards0 bs sh tf eb sb cls g)
  (card_name : string) (card_idx : Z) (e1 e2 : bool) :
  card_name_to_idx g card_name e1 = card_name_to_idx g card_name e2 ∧
  card_idx_to_name g card_idx e1 = card_idx_to_name g card_idx e2 ∧
  card_name_to_idx g card_name e1 =
    match filter (fun c => name c = card_name) (prepare_cards cards0 eb) with
    | [] => raise IndexError
    | c :: _ => ret (idx c)
    end ∧
  card_idx_to_name g card_idx e1 =
    match filter (fun c => idx c = card_idx) (prepare_cards cards0 eb) with
    | [] => raise IndexError
    | c :: _ => ret (name c)
    end.
Proof.
  destruct (constructed_established _ _ _ _ _ _ _ _ _ Hc) as [Hcards _ _ _ _ _].
  unfold card_name_to_idx, card_idx_to_name. by rewrite Hcards.
Qed.

Lemma insert_by_idx_perm c l : insert_by_idx c l ≡ₚ c :: l.
Proof.
  induction l as [|c' l IH]; simpl; [done|].
  destruct (idx c <=? idx c'); [done|].
  rewrite IH. apply perm_swap.
Qed.

Lemma sort_values_perm l : sort_values l ≡ₚ l.
Proof.
  induction l as [|c l IH]; simpl; [done|].
  rewrite insert_by_idx_perm. by rewrite IH.
Qed.

Lemma prepare_cards_NoDup cards0 eb :
  NoDup (map idx cards0) → NoDup (map idx (prepare_cards cards0 eb)).
Proof.
  intros Hnd. unfold prepare_cards.
  assert (Hs : NoDup (map idx (sort_values cards0))).
  { eapply NoDup_Permutation_proper; [|exact Hnd].
    apply fmap_Permutation, sort_values_perm. }
  destruct eb; [|done].
  rewrite map_map. simpl.
  rewrite <- (map_map idx (fun z => z - 5)).
  apply NoDup_fmap_2_strong.
  - intros x y _ _ ?. lia.
  - fold (fmap (M:=list) idx (drop 5 (sort_values cards0))).
    rewrite fmap_drop. eapply sublist_NoDup; [exact Hs|apply sublist_drop].
Qed.

Lemma filter_head {A} (P : A → Prop) `{∀ x, Decision (P x)} l x r :
  filter P l = x :: r → P x ∧ x ∈ l.
Proof.
  intros E. apply (list_elem_of_filter P l x). rewrite E. left.
Qed.

Lemma NoDup_map_inj {A B} (f : A → B) l x y :
  NoDup (map f l) → x ∈ l → y ∈ l → f x = f y → x = y.
Proof.
  induction l as [|a l IH]; simpl; intros Hnd Hx Hy E.
  - by apply elem_of_nil in Hx.
  - apply list.NoDup_cons in Hnd as [Hn Hnd].
    apply elem_of_cons in Hx as [->|Hx]; apply elem_of_cons in Hy as [->|Hy];
      try done.
    + exfalso. apply Hn. rewrite E. by apply (list_elem_of_fmap_2 f).
    + exfalso. apply Hn. rewrite <- E. by apply (list_elem_of_fmap_2 f).
    + by apply IH.
Qed.

(** C7. On a card table whose [idx] values are unique, looking up the index
    of a name of the vocabulary and then the name of that index gives the
    name back. *)
Theorem card_index_round_trip data cards0 bs sh tf eb sb cls g
  (Hc : constructed data cards0 bs sh tf eb sb cls g)
  (Hidx : NoDup (map idx cards0))
  (n : string) (Hn : n ∈ map name (cards g)) (e1 e2 : bool) :
  ∃ i, card_name_to_idx g n e1 = inr i ∧ card_idx_to_name g i e2 = inr n.
Proof.
  destruct (constructed_established _ _ _ _ _ _ _ _ _ Hc) as [Hcards _ _ _ _ _].
  pose proof (prepare_cards_NoDup cards0 eb Hidx) as Hnd.
  rewrite <- Hcards in Hnd.
  apply list_elem_of_fmap in Hn as (c & -> & Hcin).
  unfold card_name_to_idx, card_idx_to_name.
  destruct (filter (fun c0 => name c0 = name c) (cards g)) as [|c1 r1] eqn:E1.
  { exfalso. by eapply (filter_nil_not_elem_of _ _ c E1). }
  apply filter_head in E1 as [Hname1 Hin1].
  exists (idx c1). split; [done|].
  destruct (filter (fun c0 => idx c0 = idx c1) (cards g)) as [|c2 r2] eqn:E2.
  { exfalso. by eapply (filter_nil_not_elem_of _ _ c1 E2). }
  apply filter_head in E2 as [Hidx2 Hin2].
  rewrite (NoDup_map_inj idx (cards g) c2 c1 Hnd Hin2 Hin1 Hidx2).
  by rewrite Hname1.
Qed.

(** ** The theorems above at the worked inputs *)

Ltac by_computation := apply (bool_decide_unpack _); vm_compute; exact I.

Lemma epoch_reset_is_permutation_witness :
  ∃ g, constructed deck_frame cards8 2 true true true true DeckGenerator_class g ∧
       size (epochs 3 g stream0).1 = size g ∧
       indices (epochs 3 g stream0).1 ≡ₚ seq 0 (size g) ∧
       (true = false → indices (epochs 3 g stream0).1 = seq 0 (size g)).
Proof.
  destruct (DeckGenerator_init deck_frame cards8 2 true true true true stream0)
    as [e|[g s']] eqn:E; [vm_compute in E; discriminate|].
  exists (deck_base g).
  pose proof (constructed_deck _ _ _ _ _ _ _ _ _ _ E) as Hc.
  split; [exact Hc|].
  exact (epoch_reset_is_permutation _ _ _ _ _ _ _ _ _ Hc 3%nat stream0).
Defined.

Lemma length_is_floor_of_total_size_witness :
  ∃ g, constructed draft_frame cards3 3 true true false false
                   DraftGenerator_class g ∧
       3 ≠ 0 ∧ len g = inr 1 ∧ size g = 4%nat.
Proof.
  destruct (DraftGenerator_init draft_frame cards3 3 true true false false stream0)
    as [e|[g s']] eqn:E; [vm_compute in E; discriminate|].
  exists (draft_base g).
  pose proof (constructed_draft _ _ _ _ _ _ _ _ _ _ E) as Hc.
  assert (Hbs : 3 ≠ 0) by lia.
  split; [exact Hc|]. split; [exact Hbs|].
  destruct (length_is_floor_of_total_size _ _ _ _ _ _ _ _ _ Hc Hbs)
    as (total & Ht & Hsz & Hlen & _).
  vm_compute in Ht. injection Ht as <-. split; [exact Hlen|exact Hsz].
Defined.

Lemma lookup_ignores_exclude_basics_witness :
  ∃ g, constructed deck_frame cards8 2 true true true true DeckGenerator_class g ∧
       card_name_to_idx g "elf" true = card_name_to_idx g "elf" false ∧
       card_idx_to_name g 1 true = card_idx_to_name g 1 false ∧
       card_name_to_idx g "elf" true = inr 2 ∧
       card_idx_to_name g 1 true = inr "goblin".
Proof.
  destruct (DeckGenerator_init deck_frame cards8 2 true true true true stream0)
    as [e|[g s']] eqn:E; [vm_compute in E; discriminate|].
  exists (deck_base g).
  pose proof (constructed_deck _ _ _ _ _ _ _ _ _ _ E) as Hc.
  split; [exact Hc|].
  exact (lookup_ignores_exclude_basics _ _ _ _ _ _ _ _ _ Hc "elf" 1 true false).
Defined.

Lemma card_index_round_trip_witness :
  ∃ g, constructed deck_frame cards8 2 true true true true DeckGenerator_class g ∧
       NoDup (map idx cards8) ∧ "goblin" ∈ map name (cards g) ∧
       ∃ i, card_name_to_idx g "goblin" true = inr i ∧
            card_idx_to_name g i true = inr "goblin".
Proof.
  destruct (DeckGenerator_init deck_frame cards8 2 true true true true stream0)
    as [e|[g s']] eqn:E; [vm_compute in E; discriminate|].
  exists (deck_base g).
  pose proof (constructed_deck _ _ _ _ _ _ _ _ _ _ E) as Hc.
  assert (Hnd : NoDup (map idx cards8)) by by_computation.
  assert (Hn : "goblin" ∈ map name (cards (deck_base g))).
  { rewrite (est_cards _ _ _ _ _ _ (constructed_established _ _ _ _ _ _ _ _ _ Hc)).
    by_computation. }
  split; [exact Hc|]. split; [exact Hnd|]. split; [exact Hn|].
  exact (card_index_round_trip _ _ _ _ _ _ _ _ _ Hc Hnd "goblin" Hn true true).
Defined.

(** ** The attributes of a deck generator *)

Lemma deck_attrs eb sb data :
  let a := foldl (store_prefix eb sb data) ∅ deck_prefixes in
  a !! "deck" =
    Some (Array (select_values (keep_col "deck" (exclude_cards eb)) data)) ∧
  a !! "sideboard" =
    Some (Array (select_values (keep_col "sideboard" (exclude_cards eb)) data)) ∧
  a !! "deck_basics" =
    if sb then Some (Array (select_values (basic_col "deck") data)) else None.
Proof.
  unfold deck_prefixes, store_prefix; simpl.
  destruct sb; simpl; repeat split;
    repeat (rewrite lookup_insert_ne by done); 
    try (rewrite lookup_insert_eq; reflexivity).
Qed.

Lemma select_values_rows p data :
  length (rows (select_values p data)) = n_rows data.
Proof. unfold select_values, n_rows; simpl. apply length_map. Qed.

Lemma index_rows_total a ix :
  (∀ i, i ∈ ix → (i < length (rows a))%nat) →
  ∃ r, index_rows a ix = inr (mkArray (ncols a) r) ∧ length r = length ix.
Proof.
  intros H. unfold index_rows.
  destruct (gather_total (rows a) ix H) as [r Hr]. rewrite Hr. simpl.
  exists r. split; [done|]. by apply gather_length in Hr.
Qed.

Lemma epochs_attrs n g s : attrs (epochs n g s).1 = attrs g.
Proof.
  revert g s; induction n as [|n IH]; intros g s; simpl; [done|].
  unfold on_epoch_end.
  pose proof (reset_indices_fields g s) as (_&_&_&_&_&Ha&_).
  destruct (reset_indices g s) as [g1 s1]. simpl in *. by rewrite IH.
Qed.

Lemma deck_getitem_without_basics (g : MTGDataGenerator) d sbm b s1 :
  attrs g !! "deck" = Some (Array d) →
  attrs g !! "sideboard" = Some (Array sbm) →
  attrs g !! "deck_basics" = None →
  indices g ≡ₚ seq 0 (size g) →
  (size g ≤ length (rows d))%nat → (size g ≤ length (rows sbm))%nat →
  getitem (mkDeck g) b s1 = inl AttributeError.
Proof.
  intros Hd Hs Hb Hp Hld Hls. unfold getitem. simpl.
  unfold deck_generate_data, getattr_array. simpl. rewrite Hd, Hs, Hb. simpl.
  assert (Hix : ∀ i, i ∈ batch_indices g b → (i < size g)%nat)
    by (intros i; by apply batch_indices_bound).
  destruct (index_rows_total d (batch_indices g b)) as (r1 & -> & _).
  { intros i Hi. specialize (Hix i Hi). lia. }
  simpl.
  destruct (index_rows_total sbm (batch_indices g b)) as (r2 & -> & _).
  { intros i Hi. specialize (Hix i Hi). lia. }
  reflexivity.
Qed.

(** C9. A deck generator has the attribute [deck_basics] exactly when it
    was constructed with [store_basics=True]; without it every
    [get_batch], right after construction or after any number of epochs,
    raises the missing-attribute error. *)
Theorem deck_batches_need_stored_basics data cards0 bs sh tf eb sb s g s'
  (Hinit : DeckGenerator_init data cards0 bs sh tf eb sb s = inr (g, s')) :
  (is_Some (attrs (deck_base g) !! "deck_basics") ↔ sb = true) ∧
  (sb = false →
   (∀ batch_number s1, getitem g batch_number s1 = inl AttributeError) ∧
   (∀ (n : nat) s0 batch_number s1,
      getitem (mkDeck (epochs n (deck_base g) s0).1) batch_number s1
        = inl AttributeError)).
Proof.
  apply deck_init_established in Hinit as (E & Hsz & Ha & Hw).
  destruct (deck_attrs eb sb data) as (Hd & Hs & Hb). rewrite <- Ha in *.
  split.
  - rewrite Hb. destruct sb; split; intros H; try done.
  - intros ->.
    assert (Hn : ∀ (n : nat) s0 batch_number s1,
              getitem (mkDeck (epochs n (deck_base g) s0).1) batch_number s1
                = inl AttributeError).
    { intros n s0 b s1.
      destruct (epochs_invariant n (deck_base g) s0) as (Hsize & Hperm & _).
      { apply E. } { intros Hsh. apply E. destruct E. congruence. }
      eapply deck_getitem_without_basics.
      - rewrite epochs_attrs. exact Hd.
      - rewrite epochs_attrs. exact Hs.
      - rewrite epochs_attrs. exact Hb.
      - by rewrite Hsize.
      - rewrite Hsize, Hsz, select_values_rows. lia.
      - rewrite Hsize, Hsz, select_values_rows. lia. }
    split; [|exact Hn].
    intros b s1. specialize (Hn O s b s1). simpl in Hn. by destruct g.
Qed.

Lemma deck_batches_need_stored_basics_witness :
  ∃ g s',
    DeckGenerator_init deck_frame cards8 2 true true true false stream0
      = inr (g, s') ∧
    attrs (deck_base g) !! "deck_basics" = None ∧
    getitem g 0 s' = inl AttributeError ∧ getitem g 1 s' = inl AttributeError.
Proof.
  destruct (DeckGenerator_init deck_frame cards8 2 true true true false stream0)
    as [e|[g s']] eqn:E; [vm_compute in E; discriminate|].
  exists g, s'. split; [reflexivity|].
  destruct (deck_batches_need_stored_basics _ _ _ _ _ _ _ _ _ _ E) as [H1 H2].
  split; [|split; apply (proj1 (H2 eq_refl))].
  apply eq_None_not_Some. intros H. apply H1 in H. discriminate.
Defined.

(** ** Sample weights *)

Lemma py_slice_length {A} (l : list A) a b :
  0 ≤ a ≤ b → b ≤ Z.of_nat (length l) →
  length (py_slice l a b) = Z.to_nat (b - a).
Proof.
  intros Ha Hb. unfold py_slice, slice_bound.
  destruct (Z.ltb_spec a 0); [lia|]. destruct (Z.ltb_spec b 0); [lia|].
  rewrite length_take, length_drop. lia.
Qed.

Lemma batch_indices_length g b n :
  length (indices g) = size g → len g = inr n → 0 ≤ b < n →
  0 < batch_size g ∧ length (batch_indices g b) = Z.to_nat (batch_size g).
Proof.
  intros Hl Hn Hb. unfold len, floordiv in Hn.
  destruct (Z.eqb_spec (batch_size g) 0) as [|Hz]; [discriminate|].
  injection Hn as <-.
  assert (Hpos : 0 < batch_size g).
  { destruct (Z.lt_trichotomy (batch_size g) 0) as [Hneg|[?|?]]; [|lia|lia].
    pose proof (Z_div_mod_eq_full (Z.of_nat (size g)) (batch_size g)).
    pose proof (Z.mod_neg_bound (Z.of_nat (size g)) (batch_size g) Hneg).
    nia. }
  split; [exact Hpos|].
  unfold batch_indices. rewrite py_slice_length; [f_equal; lia|nia|].
  rewrite Hl.
  pose proof (Z.mul_div_le (Z.of_nat (size g)) (batch_size g) Hpos). nia.
Qed.

Lemma foldl_Qcplus acc l : foldl Qcplus acc l = (acc + Qc_sum l)%Qc.
Proof.
  unfold Qc_sum. revert acc; induction l as [|x l IH]; intros acc; simpl.
  - ring.
  - rewrite (IH (acc + x)%Qc), (IH (0 + x)%Qc). ring.
Qed.

Lemma Qc_sum_cons x l : Qc_sum (x :: l) = (x + Qc_sum l)%Qc.
Proof. unfold Qc_sum at 1. simpl. rewrite foldl_Qcplus. ring. Qed.

Lemma foldl_fadd_Fin acc l :
  foldl fadd (Fin acc) (map Fin l) = Fin (foldl Qcplus acc l).
Proof. revert acc; induction l as [|x l IH]; intros acc; simpl; [done|apply IH]. Qed.

Lemma fsum_Fin l : fsum (map Fin l) = Fin (Qc_sum l).
Proof. apply foldl_fadd_Fin. Qed.

Lemma Qc_sum_div l s :
  Qc_sum (map (fun x => x / s)%Qc l) = (Qc_sum l / s)%Qc.
Proof.
  induction l as [|x l IH]; simpl.
  - unfold Qc_sum; simpl. unfold Qcdiv. ring.
  - rewrite !Qc_sum_cons, IH. unfold Qcdiv. ring.
Qed.

Lemma Qc_sum_pos l :
  l ≠ [] → (∀ x, x ∈ l → (0 < x)%Qc) → (0 < Qc_sum l)%Qc.
Proof.
  induction l as [|x l IH]; [done|]. intros _ H. rewrite Qc_sum_cons.
  destruct l as [|y l].
  - unfold Qc_sum; simpl. rewrite Qcplus_0_r. apply H. left.
  - apply Qcplus_pos_nonneg; [apply H; left|].
    apply Qclt_le_weak, IH; [done|]. intros z Hz. apply H. by right.
Qed.

Lemma fdiv_Fin x s : s ≠ 0%Qc → fdiv x s = Fin (x / s)%Qc.
Proof. intros H. unfold fdiv. by destruct (decide (s = 0%Qc)). Qed.

(** a positive slice, once normalised, sums to one *)
Lemma normalised_sum sl :
  sl ≠ [] → (∀ x, x ∈ sl → (0 < x)%Qc) →
  map (fun x => fdiv x (Qc_sum sl)) sl
    = map Fin (map (fun x => x / Qc_sum sl)%Qc sl) ∧
  fsum (map (fun x => fdiv x (Qc_sum sl)) sl) = Fin 1%Qc.
Proof.
  intros Hne Hpos. pose proof (Qc_sum_pos sl Hne Hpos) as Hs.
  assert (Hnz : Qc_sum sl ≠ 0%Qc).
  { intros E. rewrite E in Hs. by apply Qclt_not_eq in Hs. }
  assert (E : map (fun x => fdiv x (Qc_sum sl)) sl
              = map Fin (map (fun x => x / Qc_sum sl)%Qc sl)).
  { rewrite map_map. apply map_ext. intros x. by apply fdiv_Fin. }
  split; [exact E|].
  rewrite E, fsum_Fin, Qc_sum_div. unfold Qcdiv. f_equal. by apply Qcmult_inv_r.
Qed.

Lemma draft_generate_data_weights g ix s X y w s' :
  draft_generate_data g ix s = inr (X, y, w, s') →
  batch_weights (weights (draft_base g)) ix = inr w.
Proof.
  unfold draft_generate_data. intros H.
  do 12 inv_bind H. inv_bind H. by injection H as <- <- <- <-.
Qed.

Lemma deck_generate_data_weights g ix s X y w s' :
  deck_generate_data g ix s = inr (X, y, w, s') →
  batch_weights (weights (deck_base g)) ix = inr w.
Proof.
  unfold deck_generate_data. intros H.
  do 7 inv_bind H. inv_bind H. inv_bind H.
  match goal with p : (_ * _ * _ * rng)%type |- _ => destruct p as [[[? ?] ?] ?] end.
  by injection H as <- <- <- <-.
Qed.

Lemma any_generate_data_weights (g : any_generator) ix s X y w s' :
  generate_data g ix s = inr (X, y, w, s') →
  batch_weights (weights (any_base g)) ix = inr w.
Proof.
  destruct g as [g|g|g]; simpl; intros H; [done| |].
  - inv_bind H. destruct a as [[[x0 y0] w0] s0]. injection H as <- <- <- <-.
    by eapply draft_generate_data_weights.
  - inv_bind H. destruct a as [[[x0 y0] w0] s0]. injection H as <- <- <- <-.
    by eapply deck_generate_data_weights.
Qed.



(** ** Sampling *)

Lemma foldl_Zadd acc l : foldl Z.add acc l = acc + Z_sum l.
Proof.
  unfold Z_sum. revert acc; induction l as [|x l IH]; intros acc; simpl.
  - lia.
  - rewrite (IH (acc + x)), (IH (0 + x)). lia.
Qed.

Lemma Z_sum_cons x l : Z_sum (x :: l) = x + Z_sum l.
Proof. unfold Z_sum at 1. simpl. rewrite foldl_Zadd. lia. Qed.

Lemma rand_length k s : length (rand k s).1 = k.
Proof.
  revert s; induction k as [|k IH]; intros s; cbn [rand]; [done|].
  destruct (random_double s) as [r s1]. specialize (IH s1).
  destruct (rand k s1) as [rs s2]. cbn in *. lia.
Qed.

(** *** A row that sums to zero *)

Lemma fdiv_by_zero x : not_finite (fdiv x 0%Qc).
Proof.
  unfold fdiv. destruct (decide (0%Qc = 0%Qc)) as [_|N]; [|done].
  intros q. destruct (decide (x = 0%Qc)); [done|].
  by destruct (decide (0 < x)%Qc).
Qed.

Lemma fadd_never_above acc x :
  never_above acc → not_finite x → never_above (fadd acc x).
Proof.
  intros [-> | ->] Hx; destruct x as [q| | |]; simpl;
    unfold never_above; try tauto.
  all: by destruct (Hx q).
Qed.

Lemma cumsum_from_never_above r acc l :
  never_above acc → Forall not_finite l →
  first_true (map (flt r) (cumsum_from acc l)) = None.
Proof.
  revert acc; induction l as [|x l IH]; intros acc Ha Hl; simpl; [done|].
  apply list.Forall_cons in Hl as [Hx Hl].
  pose proof (fadd_never_above acc x Ha Hx) as Hn.
  rewrite (IH _ Hn Hl).
  by destruct Hn as [-> | ->].
Qed.

Lemma sample_row_zero_sum r row : Z_sum row = 0 → sample_row r row = O.
Proof.
  intros Hz. unfold sample_row, probabilities. rewrite Hz, Z2Qc_inj_0.
  destruct row as [|x l]; [done|]. simpl.
  assert (Hl : Forall not_finite (map (fun y => fdiv (Qc_of_Z y) 0%Qc) l)).
  { apply list.Forall_forall. intros y Hy.
    apply list_elem_of_fmap in Hy as (z & -> & _). apply fdiv_by_zero. }
  pose proof (fdiv_by_zero (Qc_of_Z x)) as Hx.
  destruct (fdiv (Qc_of_Z x) 0%Qc) as [q| | |] eqn:E.
  - by destruct (Hx q).
  - done.
  - unfold argmax. simpl. rewrite cumsum_from_never_above; [done|by right|done].
  - unfold argmax. simpl. rewrite cumsum_from_never_above; [done|by left|done].
Qed.

Lemma get_vectorized_sample_lookup mtx s i row :
  (0 < ncols mtx)%nat → rows mtx !! i = Some row →
  ∃ r, (rand (length (rows mtx)) s).1 !! i = Some r ∧
       get_vectorized_sample mtx s =
         inr (zip_with sample_row (rand (length (rows mtx)) s).1 (rows mtx),
              (rand (length (rows mtx)) s).2) ∧
       zip_with sample_row (rand (length (rows mtx)) s).1 (rows mtx) !! i
         = Some (sample_row r row).
Proof.
  intros Hc Hrow. unfold get_vectorized_sample.
  pose proof (rand_length (length (rows mtx)) s) as Hl.
  destruct (rand (length (rows mtx)) s) as [rs s1]. simpl in *.
  destruct (lookup_lt_is_Some_2 rs i) as [r Hr].
  { rewrite Hl. by eapply lookup_lt_Some. }
  exists r. split; [done|]. split.
  - destruct (Nat.eqb_spec (ncols mtx) 0); [lia|done].
  - rewrite lookup_zip_with, Hr, Hrow. done.
Qed.

(** C8 (as amended). In a matrix with at least one column, a row whose
    entries sum to zero is sampled at index 0, whatever the random draws. *)
Theorem zero_row_samples_index_0 (mtx : ndarray) (s : rng) (i : nat)
  (row : list Z) (Hcols : (0 < ncols mtx)%nat)
  (Hrow : rows mtx !! i = Some row) (Hzero : Z_sum row = 0) :
  ∃ samples s',
    get_vectorized_sample mtx s = inr (samples, s') ∧
    samples !! i = Some O.
Proof.
  destruct (get_vectorized_sample_lookup mtx s i row Hcols Hrow)
    as (r & _ & Hg & Hi).
  eexists _, _. split; [exact Hg|].
  rewrite Hi. by rewrite sample_row_zero_sum.
Qed.

Lemma zero_row_samples_index_0_witness :
  (0 < 3)%nat ∧
  rows (mkArray 3 [[3; 0; 1]; [0; 0; 0]; [2; -2; 0]]) !! 1%nat = Some [0; 0; 0] ∧
  Z_sum [0; 0; 0] = 0 ∧
  ∃ samples s',
    get_vectorized_sample (mkArray 3 [[3; 0; 1]; [0; 0; 0]; [2; -2; 0]]) stream0
      = inr (samples, s') ∧
    samples !! 1%nat = Some O.
Proof.
  assert (H1 : (0 < 3)%nat) by lia.
  assert (H2 : rows (mkArray 3 [[3; 0; 1]; [0; 0; 0]; [2; -2; 0]]) !! 1%nat
               = Some [0; 0; 0]) by reflexivity.
  assert (H3 : Z_sum [0; 0; 0] = 0) by reflexivity.
  split; [exact H1|]. split; [exact H2|]. split; [exact H3|].
  exact (zero_row_samples_index_0
           (mkArray 3 [[3; 0; 1]; [0; 0; 0]; [2; -2; 0]]) stream0 1%nat
           [0; 0; 0] H1 H2 H3).
Defined.

(** Without the condition on the columns the statement fails: in a matrix
    without columns (what a prefix that matches no column leaves behind)
    every row sums to zero, and [argmax] along the empty axis raises
    instead of returning 0. *)
Lemma empty_row_sampling_raises :
  rows (mkArray 0 [[]]) !! O = Some [] ∧ Z_sum [] = 0 ∧
  get_vectorized_sample (mkArray 0 [[]]) stream0 = inl ValueError.
Proof. repeat split. Defined.

(** *** A row with positive mass *)

Lemma random_double_range s :
  (0 ≤ (random_double s).1)%Qc ∧ ((random_double s).1 < 1)%Qc.
Proof.
  unfold random_double, draw. simpl.
  set (z := Z.of_N (s O `mod` 2 ^ 53)).
  assert (Hz : 0 ≤ z < 9007199254740992).
  { subst z. change (2 ^ 53)%N with 9007199254740992%N.
    assert (s O `mod` 9007199254740992 < 9007199254740992)%N
      by (by apply N.mod_lt).
    set (m := (s O `mod` 9007199254740992)%N) in *. clearbody m. lia. }
  unfold Qcle, Qclt. simpl. rewrite !Qred_correct.
  unfold Qle, Qlt. simpl. lia.
Qed.

Lemma rand_range k s :
  Forall (fun r => (0 ≤ r)%Qc ∧ (r < 1)%Qc) (rand k s).1.
Proof.
  revert s; induction k as [|k IH]; intros s; cbn [rand]; [constructor|].
  pose proof (random_double_range s) as Hr.
  destruct (random_double s) as [r s1]. specialize (IH s1).
  destruct (rand k s1) as [rs s2]. cbn in *. by constructor.
Qed.

Lemma Z_sum_nonneg l : Forall (fun x => 0 ≤ x) l → 0 ≤ Z_sum l.
Proof.
  induction 1 as [|x l Hx Hl IH]; [done|]. rewrite Z_sum_cons. lia.
Qed.

Lemma Z_sum_pos l j x :
  Forall (fun x => 0 ≤ x) l → l !! j = Some x → 0 < x → 0 < Z_sum l.
Proof.
  intros Hl. revert j; induction Hl as [|y l Hy Hl IH]; intros j Hj Hx; [done|].
  rewrite Z_sum_cons. pose proof (Z_sum_nonneg l Hl).
  destruct j as [|j]; simpl in Hj.
  - injection Hj as ->. lia.
  - specialize (IH j Hj Hx). lia.
Qed.

Lemma Qc_div_lt (a b : Z) (q : Qc) :
  (0 < q)%Qc → (Qc_of_Z a / q < Qc_of_Z b / q)%Qc ↔ a < b.
Proof.
  intros Hq. unfold Qcdiv.
  rewrite <- (Qcmult_lt_mono_pos_r _ _ (/ q)%Qc) by by apply Qcinv_pos.
  symmetry. apply Z2Qc_inj_lt.
Qed.

(** The scan of [cumsum] started at the prefix sum [acc]: the first position
    whose cumulative value exceeds the draw holds a positive entry. *)
Lemma first_true_cumsum_from (q r : Qc) (acc : Z) (l : list Z) :
  (0 < q)%Qc → Forall (fun x => 0 ≤ x) l →
  (Qc_of_Z acc / q ≤ r)%Qc → (r < Qc_of_Z (acc + Z_sum l) / q)%Qc →
  ∃ j x,
    first_true (map (flt r)
      (cumsum_from (Fin (Qc_of_Z acc / q))
                   (map (fun x => fdiv (Qc_of_Z x) q) l))) = Some j ∧
    l !! j = Some x ∧ 0 < x.
Proof.
  intros Hq Hl. revert acc; induction Hl as [|x l Hx Hl IH]; intros acc Hlo Hhi.
  - exfalso. unfold Z_sum in Hhi; simpl in Hhi. rewrite Z.add_0_r in Hhi.
    by apply Qclt_not_le in Hhi.
  - assert (Hqz : q ≠ 0%Qc).
    { intros ->. by apply Qclt_not_eq in Hq. }
    simpl. rewrite (fdiv_Fin _ _ Hqz). simpl.
    assert (E : (Qc_of_Z acc / q + Qc_of_Z x / q)%Qc = (Qc_of_Z (acc + x) / q)%Qc).
    { rewrite Z2Qc_inj_add. unfold Qcdiv. ring. }
    rewrite E.
    destruct (decide (r < Qc_of_Z (acc + x) / q)%Qc) as [Hlt|Hge].
    + exists O, x. rewrite bool_decide_eq_true_2 by done. simpl.
      split; [done|]. split; [done|].
      assert (Qc_of_Z acc / q < Qc_of_Z (acc + x) / q)%Qc as H
        by (eapply Qcle_lt_trans; eauto).
      apply Qc_div_lt in H; [lia|done].
    + rewrite bool_decide_eq_false_2 by done. simpl.
      destruct (IH (acc + x)) as (j & y & Hj & Hy & Hpos).
      * by apply Qcnot_lt_le.
      * rewrite Z_sum_cons in Hhi. by rewrite <- Z.add_assoc.
      * exists (S j), y. rewrite Hj. done.
Qed.

Lemma sample_row_positive r row :
  (0 ≤ r)%Qc → (r < 1)%Qc → Forall (fun x => 0 ≤ x) row → 0 < Z_sum row →
  ∃ x, row !! sample_row r row = Some x ∧ 0 < x.
Proof.
  intros Hr0 Hr1 Hrow Hs.
  set (q := Qc_of_Z (Z_sum row)).
  assert (Hq : (0 < q)%Qc).
  { subst q. pose proof (proj1 (Z2Qc_inj_lt 0 (Z_sum row)) Hs) as H.
    by rewrite Z2Qc_inj_0 in H. }
  assert (Hqz : q ≠ 0%Qc).
  { intros E. rewrite E in Hq. by apply Qclt_not_eq in Hq. }
  destruct (first_true_cumsum_from q r 0 row Hq Hrow) as (j & x & Hj & Hx & Hp).
  - rewrite Z2Qc_inj_0. unfold Qcdiv. by rewrite Qcmult_0_l.
  - rewrite Z.add_0_l. fold q. unfold Qcdiv. by rewrite Qcmult_inv_r.
  - exists x. split; [|done].
    assert (sample_row r row = j) as ->; [|done].
    unfold sample_row, probabilities, argmax. fold q.
    destruct row as [|x0 l]; [done|].
    simpl in Hj. simpl.
    rewrite (fdiv_Fin _ _ Hqz) in Hj |- *.
    assert (E : (Qc_of_Z 0 / q + Qc_of_Z x0 / q)%Qc = (Qc_of_Z x0 / q)%Qc).
    { rewrite Z2Qc_inj_0. unfold Qcdiv. ring. }
    simpl in Hj. rewrite E in Hj. simpl. by rewrite Hj.
Qed.

Lemma get_vectorized_sample_inv mtx s samples s' i row :
  get_vectorized_sample mtx s = inr (samples, s') →
  rows mtx !! i = Some row →
  ∃ r, (0 ≤ r)%Qc ∧ (r < 1)%Qc ∧ samples !! i = Some (sample_row r row).
Proof.
  unfold get_vectorized_sample. intros H Hrow.
  pose proof (rand_length (length (rows mtx)) s) as Hl.
  pose proof (rand_range (length (rows mtx)) s) as Hr.
  destruct (rand (length (rows mtx)) s) as [rs s1]. simpl in *.
  destruct (ncols mtx =? 0)%nat; [discriminate|]. injection H as <- <-.
  destruct (lookup_lt_is_Some_2 rs i) as [r Hri].
  { rewrite Hl. by eapply lookup_lt_Some. }
  exists r. rewrite list.Forall_forall in Hr.
  destruct (Hr r) as [H0 H1]; [by eapply list_elem_of_lookup_2|].
  split; [done|]. split; [done|].
  by rewrite lookup_zip_with, Hri, Hrow.
Qed.

Lemma zero_at_lookup m k anchors m' i row a :
  zero_at m k anchors = inr m' → (i < k)%nat →
  rows m !! i = Some row → anchors !! i = Some a →
  rows m' !! i = Some (<[a := 0]> row).
Proof.
  unfold zero_at. intros H Hi Hrow Ha.
  destruct (length (rows m) <? k)%nat; [discriminate|].
  destruct (forallb _ _); [|discriminate]. injection H as <-. simpl.
  rewrite lookup_app_l.
  - rewrite lookup_zip_with, lookup_take_lt, Hrow, Ha by done. done.
  - rewrite length_zip_with, length_take.
    apply lookup_lt_Some in Hrow, Ha. lia.
Qed.

(** what is left of a row with two nonzero entries once one position is
    zeroed *)
Lemma zeroed_row_positive row a :
  Forall (fun x => 0 ≤ x) row → two_nonzero row →
  Forall (fun x => 0 ≤ x) (<[a := 0]> row) ∧ 0 < Z_sum (<[a := 0]> row).
Proof.
  intros Hn (j & k & x & y & Hjk & Hj & Hk & Hx & Hy).
  assert (Hn' : Forall (fun x => 0 ≤ x) (<[a := 0]> row))
    by (by apply Forall_insert).
  split; [exact Hn'|].
  rewrite list.Forall_forall in Hn.
  assert (0 ≤ x) by (by eapply Hn, list_elem_of_lookup_2).
  assert (0 ≤ y) by (by eapply Hn, list_elem_of_lookup_2).
  destruct (decide (a = j)) as [->|Haj].
  - apply (Z_sum_pos _ k y Hn'); [|lia]. by rewrite list_lookup_insert_ne.
  - apply (Z_sum_pos _ j x Hn'); [|lia]. by rewrite list_lookup_insert_ne.
Qed.

Lemma zeroed_row_sample_differs r row a :
  (0 ≤ r)%Qc → (r < 1)%Qc → Forall (fun x => 0 ≤ x) row → two_nonzero row →
  sample_row r (<[a := 0]> row) ≠ a.
Proof.
  intros Hr0 Hr1 Hn H2 E.
  destruct (zeroed_row_positive row a Hn H2) as [Hn' Hs].
  destruct (sample_row_positive r _ Hr0 Hr1 Hn' Hs) as (x & Hx & Hpos).
  rewrite E in Hx.
  destruct (decide (a < length row)%nat).
  - rewrite list_lookup_insert_eq in Hx by done. injection Hx as <-. lia.
  - apply lookup_lt_Some in Hx. rewrite length_insert in Hx. lia.
Qed.

(** The three index vectors of a deck batch are those of
    [sample_card_pairs] on the deck and sideboard rows of the batch. *)
Lemma deck_generate_data_samples g ix s pools anchors pos neg basics_ decks w s' :
  deck_generate_data g ix s
    = inr ((pools, anchors, pos, neg), (basics_, decks), w, s') →
  ∃ deck sideboard sideboards,
    getattr_array (deck_base g) "deck" = inr deck ∧
    index_rows deck ix = inr decks ∧
    getattr_array (deck_base g) "sideboard" = inr sideboard ∧
    index_rows sideboard ix = inr sideboards ∧
    sample_card_pairs decks sideboards s = inr (anchors, pos, neg, s').
Proof.
  unfold deck_generate_data. intros H.
  inv_bind H. rename a into deck, Ha into H1.
  inv_bind H. rename a into decks0, Ha into H2.
  inv_bind H. rename a into sideboard, Ha into H3.
  inv_bind H. rename a into sideboards, Ha into H4.
  inv_bind H. inv_bind H. inv_bind H. inv_bind H. inv_bind H.
  match goal with p : (_ * _ * _ * rng)%type |- _ => destruct p as [[[? ?] ?] ?] end.
  injection H as <- <- <- <- <- <- <- <-.
  exists deck, sideboard, sideboards. done.
Qed.



(** ** Draft batches *)

Lemma reshape_ok {A} (flat : list A) k tn c :
  length flat = (k * tn * c)%nat →
  reshape flat k (Some (Z.of_nat tn)) c = inr (mkTensor (k, tn, c) flat).
Proof.
  intros H. unfold reshape.
  destruct (Z.eqb_spec (Z.of_nat tn) (-1)); [lia|].
  destruct (Z.ltb_spec (Z.of_nat tn) 0); [lia|].
  rewrite Nat2Z.id. destruct (Nat.eqb_spec (k * tn * c) (length flat)); [done|lia].
Qed.

Lemma length_flat_map_const {A B} (f : A → list B) l m :
  (∀ x, x ∈ l → length (f x) = m) → length (flat_map f l) = (length l * m)%nat.
Proof.
  induction l as [|a l IH]; intros H; simpl; [done|].
  rewrite length_app, IH, (H a); [lia|left|]. intros x Hx. apply H. by right.
Qed.

Lemma concatenate_ok {A} (a b : tensor A) k tn c1 c2 :
  shape a = (k, tn, c1) → shape b = (k, tn, c2) →
  length (buf a) = (k * tn * c1)%nat → length (buf b) = (k * tn * c2)%nat →
  ∃ r, concatenate a b = inr r ∧ shape r = (k, tn, (c1 + c2)%nat) ∧
       length (buf r) = (k * tn * (c1 + c2))%nat.
Proof.
  intros Ha Hb La Lb. unfold concatenate. rewrite Ha, Hb, !Nat.eqb_refl. simpl.
  eexists. split; [reflexivity|]. split; [done|]. simpl.
  rewrite (length_flat_map_const _ _ (c1 + c2)%nat).
  - by rewrite length_seq.
  - intros i Hi. apply elem_of_seq in Hi.
    rewrite length_app, !length_take, !length_drop. nia.
Qed.

Lemma length_concat_const {A} (ls : list (list A)) c :
  Forall (fun l => length l = c) ls → length (concat ls) = (length ls * c)%nat.
Proof.
  induction 1 as [|l ls Hl _ IH]; simpl; [done|]. rewrite length_app. lia.
Qed.

Lemma filter_zip_fst_length {K V} (P : K → Prop) `{∀ k, Decision (P k)}
  (keys : list K) (vals : list V) :
  length keys = length vals →
  length (filter (fun kv => P (fst kv)) (zip keys vals))
    = length (filter P keys).
Proof.
  revert vals; induction keys as [|k keys IH]; intros [|v vals] Hl;
    simpl in *; try done.
  rewrite !filter_cons. simpl. injection Hl as Hl.
  destruct (decide (P k)); simpl; by rewrite IH.
Qed.

Lemma filter_zip_snd_Forall {K V} (P : K * V → Prop) `{∀ kv, Decision (P kv)}
  (Q : V → Prop) (keys : list K) (vals : list V) :
  Forall Q vals → Forall Q (map snd (filter P (zip keys vals))).
Proof.
  intros HQ. apply list.Forall_forall. intros v Hv.
  apply list_elem_of_fmap in Hv as ([k v'] & -> & Hin).
  apply list_elem_of_filter in Hin as [_ Hin].
  apply elem_of_zip_r in Hin. rewrite list.Forall_forall in HQ. by apply HQ.
Qed.

(** [loc] on ids that each label [tn > 0] rows (or on no id at all) *)
Lemma loc_ok {A} (keys : list (Z * Z)) (vals : list A) (ids : list Z) tn
  (Q : A → Prop) :
  length keys = length vals → (ids = [] ∨ 0 < tn)%nat → Forall Q vals →
  (∀ d, d ∈ ids → length (filter (fun k => fst k = d) keys) = tn) →
  ∃ r, loc keys vals ids = inr r ∧ length r = (length ids * tn)%nat ∧
       Forall Q r.
Proof.
  intros Hl Htn HQ Hc. unfold loc.
  set (f := fun d : Z =>
              match filter (fun kv : Z * Z * A => fst (fst kv) = d)
                           (zip keys vals) with
              | [] => raise KeyError
              | l => ret (map snd l)
              end).
  assert (Hf : ∀ d, d ∈ ids →
            ∃ b, f d = inr b ∧ length b = tn ∧ Forall Q b).
  { intros d Hd. subst f. simpl.
    pose proof (filter_zip_fst_length (fun k => fst k = d) keys vals Hl) as Hf.
    rewrite (Hc d Hd) in Hf.
    pose proof (filter_zip_snd_Forall (fun kv => fst (fst kv) = d) Q keys vals HQ)
      as HQd.
    destruct (filter (fun kv => fst (fst kv) = d) (zip keys vals))
      as [|kv l] eqn:E.
    { destruct Htn as [->|Htn]; [by apply elem_of_nil in Hd|simpl in Hf; lia]. }
    eexists. split; [reflexivity|]. split; [|exact HQd].
    rewrite <- Hf. simpl. by rewrite length_map. }
  clearbody f. clear Hc Htn.
  induction ids as [|d ids IH]; cbn [mapM].
  - exists []. by repeat split.
  - destruct IH as (r & Hr & Hlen & HQr); [intros; apply Hf; by right|].
    inv_bind Hr. injection Hr as <-.
    destruct (Hf d) as (b & Hb & Hbl & HQb); [left|].
    rewrite Hb, Ha. simpl. eexists. split; [reflexivity|].
    rewrite length_app, Hbl, Hlen. split; [lia|].
    apply Forall_app. by split.
Qed.

Lemma column_length data label col :
  column data label = inr col → length col = n_rows data.
Proof.
  unfold column. destruct (col_index _ _); [|discriminate].
  intros H. injection H as <-. apply length_map.
Qed.

Lemma icolumn_inv f label sr :
  icolumn f label = inr sr →
  skeys sr = ikeys f ∧ length (svalues sr) = length (ivalues f).
Proof.
  unfold icolumn. destruct (col_index _ _); [|discriminate].
  intros H. injection H as <-. simpl. by rewrite length_map.
Qed.

Lemma select_row_length p cols row :
  length row = length cols →
  length (select_row p cols row) = length (filter (fun c => p c = true) cols).
Proof.
  revert row; induction cols as [|c cols IH]; intros [|x row] H;
    simpl in *; try done.
  rewrite filter_cons. injection H as H.
  destruct (p c); simpl; by rewrite IH.
Qed.

Lemma filter_negb_is_key (cols : list string) :
  filter (fun c => negb (is_key c) = true) cols
  = filter (fun c => is_key c = false) cols.
Proof.
  induction cols as [|c cols IH]; [done|]. rewrite !filter_cons, IH.
  by destruct (is_key c).
Qed.

Lemma set_index_inv data f :
  set_index data = inr f → well_formed data →
  ∃ dcol pcol,
    column data "draft_id" = inr dcol ∧ column data "position" = inr pcol ∧
    ikeys f = zip dcol pcol ∧
    length (ikeys f) = n_rows data ∧ length (ivalues f) = n_rows data ∧
    Forall (fun row => length row = length (icolumns f)) (ivalues f).
Proof.
  unfold set_index. intros H [Hwf _]. inv_bind H. inv_bind H.
  injection H as <-. simpl. exists a, a0.
  apply column_length in Ha as Hla. apply column_length in Ha0 as Hla0.
  repeat split; try done.
  - rewrite length_zip_with. lia.
  - apply length_map.
  - apply list.Forall_forall. intros row Hrow.
    apply list_elem_of_fmap in Hrow as (r & -> & Hr).
    rewrite list.Forall_forall in Hwf.
    rewrite select_row_length by by apply Hwf.
    by rewrite filter_negb_is_key.
Qed.

Lemma iselect_rows p f :
  Forall (fun row => length row = length (icolumns f)) (ivalues f) →
  Forall (fun row => length row = length (icolumns (iselect p f)))
         (ivalues (iselect p f)).
Proof.
  intros H. unfold iselect. simpl. apply list.Forall_forall. intros row Hrow.
  apply list_elem_of_fmap in Hrow as (r & -> & Hr).
  rewrite list.Forall_forall in H. by apply select_row_length, H.
Qed.

Lemma draft_attrs eb sb f :
  let a := foldl (store_prefix_draft eb sb f) ∅ draft_prefixes in
  a !! "pack_card" =
    Some (Frame (iselect (keep_col "pack_card" (exclude_cards eb)) f)) ∧
  a !! "pool" =
    Some (Frame (iselect (keep_col "pool" (exclude_cards eb)) f)).
Proof.
  unfold draft_prefixes, store_prefix_draft; simpl.
  destruct sb; simpl; split;
    repeat (rewrite lookup_insert_ne by done);
    by rewrite lookup_insert_eq.
Qed.

Lemma unique_elem_of d l : d ∈ unique l → d ∈ l.
Proof.
  revert d; induction l as [|x l IH]; intros d; simpl; [done|].
  intros H. apply elem_of_cons in H as [->|H]; [left|right].
  apply list_elem_of_filter in H as [_ H]. by apply IH.
Qed.

Lemma unique_length (l : list Z) : (length (unique l) ≤ length l)%nat.
Proof.
  induction l as [|x l IH]; simpl; [done|].
  pose proof (length_filter (fun y => y ≠ x) (unique l)). lia.
Qed.

(** What [DraftGenerator.generate_global_data] leaves behind. *)
Lemma draft_ggd_inv eb sb data a w ids t_ pk ps :
  draft_generate_global_data eb sb data = inr (a, w, (ids, t_, pk, ps)) →
  well_formed data →
  ∃ dcol pcol f,
    column data "draft_id" = inr dcol ∧ column data "position" = inr pcol ∧
    ids = unique dcol ∧ t_ = Z.succ <$> series_max pcol ∧
    w = ml_weights data ∧
    a = foldl (store_prefix_draft eb sb f) ∅ draft_prefixes ∧
    ikeys f = zip dcol pcol ∧ length (ikeys f) = n_rows data ∧
    length (ivalues f) = n_rows data ∧
    Forall (fun row => length row = length (icolumns f)) (ivalues f) ∧
    skeys pk = ikeys f ∧ length (svalues pk) = n_rows data ∧
    skeys ps = ikeys f ∧ length (svalues ps) = n_rows data.
Proof.
  unfold draft_generate_global_data. intros H Hwf.
  inv_bind H. rename a0 into dcol, Ha into Hd.
  inv_bind H. rename a0 into pcol, Ha into Hp.
  inv_bind H. rename a0 into f, Ha into Hf.
  inv_bind H. rename a0 into pk0, Ha into Hpk.
  inv_bind H. rename a0 into pn, Ha into Hpn.
  inv_bind H. rename a0 into pi, Ha into Hpi.
  injection H as <- <- <- <- <- <-.
  destruct (set_index_inv data f Hf Hwf)
    as (dcol' & pcol' & Hd' & Hp' & Hk & Hkl & Hvl & Hrows).
  rewrite Hd in Hd'. rewrite Hp in Hp'.
  injection Hd' as <-. injection Hp' as <-.
  apply icolumn_inv in Hpk as [Hpk1 Hpk2].
  apply icolumn_inv in Hpn as [Hpn1 Hpn2].
  apply icolumn_inv in Hpi as [Hpi1 Hpi2].
  exists dcol, pcol, f. simpl.
  repeat split; try done; try congruence.
  rewrite length_zip_with. lia.
Qed.

Lemma gather_elem_lookup {A} (l : list A) ix r x :
  gather l ix = inr r → x ∈ r → ∃ i, i ∈ ix ∧ l !! i = Some x.
Proof.
  unfold gather. revert r; induction ix as [|i ix IH]; simpl; intros r H Hx.
  - injection H as <-. by apply elem_of_nil in Hx.
  - inv_bind H. inv_bind H. injection H as <-.
    apply elem_of_cons in Hx as [->|Hx].
    + exists i. split; [left|]. destruct (l !! i); [|discriminate].
      by injection Ha as <-.
    + destruct (IH _ Ha0 Hx) as (j & Hj & Hl). exists j. split; [by right|done].
Qed.

Lemma key_rows_pos d (dcol pcol : list Z) :
  d ∈ dcol → length dcol = length pcol →
  (0 < length (filter (fun k : Z * Z => fst k = d) (zip dcol pcol)))%nat.
Proof.
  revert pcol; induction dcol as [|x dcol IH]; intros [|p pcol] Hd Hl;
    simpl in *; try done.
  - by apply elem_of_nil in Hd.
  - rewrite filter_cons. simpl. destruct (decide (x = d)); [simpl; lia|].
    apply elem_of_cons in Hd as [->|Hd]; [done|]. apply IH; [done|lia].
Qed.

Lemma batch_weights_total w ix :
  (∀ ws i, w = Some ws → i ∈ ix → (i < length ws)%nat) →
  ∃ r, batch_weights w ix = inr r.
Proof.
  intros H. unfold batch_weights. destruct w as [ws|]; [|by eexists].
  destruct (gather_total ws ix) as [sl ->]; [intros i Hi; by apply (H ws)|].
  by eexists.
Qed.


Lemma draft_frame_well_formed : well_formed draft_frame.
Proof.
  split; [by_computation|]. intros w H. injection H as <-. reflexivity.
Qed.



(** The same happens on a dataset with one column per card and prefix when
    a card other than the basics has a basic-land name inside its name:
    line 129 drops its columns, line 23 keeps its row. *)
Lemma substring_exclusion_narrows_features :
  ∃ g s1 features positions picks w,
    DraftGenerator_init goat_frame cards7 1 true true true false stream0
      = inr (g, s1) ∧
    map name (cards (draft_base g)) = ["bear"; "mountain goat"] ∧
    n_cards (draft_base g) = 2%nat ∧
    draft_generate_data g (batch_indices (draft_base g) 0) s1
      = inr ((features, positions), picks, w, s1) ∧
    shape features = (1, 2, 2)%nat.
Proof.
  destruct (DraftGenerator_init goat_frame cards7 1 true true true false stream0)
    as [e|[g s1]] eqn:E; [vm_compute in E; discriminate|].
  vm_compute in E. injection E as <- <-.
  eexists _, _, _, _, _, _. split; [reflexivity|].
  split; [reflexivity|]. split; [reflexivity|].
  split; [vm_compute; reflexivity|]. reflexivity.
Qed.

(** ** The factory *)

Lemma construct_batch_size cls data cards0 bs sh tf eb s g s' :
  construct cls data cards0 bs sh tf eb s = inr (g, s') →
  batch_size (any_base g) = bs.
Proof.
  unfold construct. destruct cls; intros H; [discriminate| |].
  - inv_bind H. destruct a as [dg s1]. injection H as <- <-.
    apply draft_init_inv in Ha as (E & _). apply E.
  - inv_bind H. destruct a as [dg s1]. injection H as <- <-.
    apply deck_init_established in Ha as (E & _). apply E.
Qed.

(** C4 (as amended). When the factory returns a validation generator, its
    batch size is the number of validation rows floor-divided by the number
    of training batches, which is then not zero. *)
Theorem validation_batch_size (importance_weighting : DataFrame → list Qc)
  data cards0 id_col train_p weights train_batch_size sh tf eb generator
  (s s' : rng) (train_gen val_gen : any_generator)
  (Hcall : create_train_and_val_gens importance_weighting data cards0 id_col
             train_p weights train_batch_size sh tf eb generator s
           = inr (train_gen, Some val_gen, s')) :
  ∃ train_data test_data s1 n_train_batches,
    split (if weights then with_weights importance_weighting data else data)
          id_col train_p s
      = inr (train_data, Some test_data, s1) ∧
    len (any_base train_gen) = inr n_train_batches ∧
    n_train_batches ≠ 0 ∧
    batch_size (any_base val_gen)
      = Z.of_nat (n_rows test_data) / n_train_batches.
Proof.
  unfold create_train_and_val_gens in Hcall.
  inv_bind Hcall. destruct a as [[train_data [test_data|]] s1].
  - inv_bind Hcall. destruct a as [tg s2].
    inv_bind Hcall. rename a into n. inv_bind Hcall. rename a into vbs.
    inv_bind Hcall. destruct a as [vg s3]. injection Hcall as <- <- <-.
    exists train_data, test_data, s1, n.
    unfold floordiv in Ha2. destruct (Z.eqb_spec n 0); [discriminate|].
    injection Ha2 as <-.
    apply construct_batch_size in Ha3. done.
  - inv_bind Hcall. destruct a as [tg s2]. discriminate.
Qed.

Lemma validation_batch_size_witness :
  ∃ train_gen val_gen s',
    create_train_and_val_gens (fun _ => []) draft_frame cards3
      (Some "draft_id") (Q2Qc (1 # 2)) false 1 true true false
      DraftGenerator_class stream0
      = inr (train_gen, Some val_gen, s') ∧
    ∃ train_data test_data s1 n_train_batches,
      split draft_frame (Some "draft_id") (Q2Qc (1 # 2)) stream0
        = inr (train_data, Some test_data, s1) ∧
      len (any_base train_gen) = inr n_train_batches ∧
      n_train_batches ≠ 0 ∧
      batch_size (any_base val_gen)
        = Z.of_nat (n_rows test_data) / n_train_batches.
Proof.
  destruct (create_train_and_val_gens (fun _ => []) draft_frame cards3
              (Some "draft_id") (Q2Qc (1 # 2)) false 1 true true false
              DraftGenerator_class stream0)
    as [e|[[train_gen [val_gen|]] s']] eqn:E;
    [vm_compute in E; discriminate| |vm_compute in E; discriminate].
  exists train_gen, val_gen, s'. split; [reflexivity|].
  exact (validation_batch_size _ _ _ _ _ _ _ _ _ _ _ _ _ _ _ E).
Defined.

(** Nothing guards a zero result: with three training batches and two
    validation rows the call returns a validation generator whose batch
    size is 0; its [length()] then divides by zero and its batches are cut
    from the empty slice. *)
Lemma validation_batch_size_unguarded :
  ∃ train_gen val_gen s',
    create_train_and_val_gens (fun _ => []) draft_frame cards3
      (Some "draft_id") (Q2Qc (3 # 4)) false 1 true true false
      DraftGenerator_class stream0
      = inr (train_gen, Some val_gen, s') ∧
    len (any_base train_gen) = inr 3 ∧
    batch_size (any_base val_gen) = 0 ∧
    len (any_base val_gen) = inl ZeroDivisionError ∧
    batch_indices (any_base val_gen) 0 = [] ∧
    ∃ b s'', getitem val_gen 0 s' = inr (b, s'').
Proof.
  destruct (create_train_and_val_gens (fun _ => []) draft_frame cards3
              (Some "draft_id") (Q2Qc (3 # 4)) false 1 true true false
              DraftGenerator_class stream0)
    as [e|[[train_gen [val_gen|]] s']] eqn:E;
    [vm_compute in E; discriminate| |vm_compute in E; discriminate].
  vm_compute in E. injection E as <- <- <-.
  eexists _, _, _. split; [reflexivity|].
  split; [reflexivity|]. split; [reflexivity|]. split; [reflexivity|].
  split; [reflexivity|].
  eexists _, _. vm_compute. reflexivity.
Defined.

(** * Further properties *)

(** ** Batching *)

Lemma batch_indices_explicit g n b :
  length (indices g) = size g → len g = inr n → 0 ≤ b < n →
  batch_indices g b
  = take (Z.to_nat (batch_size g))
         (drop (Z.to_nat b * Z.to_nat (batch_size g)) (indices g)).
Proof.
  intros Hl Hn Hb.
  destruct (batch_indices_length g b n Hl Hn Hb) as [Hpos _].
  unfold len, floordiv in Hn.
  destruct (Z.eqb_spec (batch_size g) 0); [discriminate|]. injection Hn as <-.
  pose proof (Z.mul_div_le (Z.of_nat (size g)) (batch_size g) Hpos).
  unfold batch_indices, py_slice, slice_bound. rewrite Hl.
  destruct (Z.ltb_spec (b * batch_size g) 0) as [|_]; [nia|].
  destruct (Z.ltb_spec ((b + 1) * batch_size g) 0) as [|_]; [nia|].
  f_equal; [|f_equal]; nia.
Qed.

Lemma slices_disjoint {A} (l : list A) a1 k1 a2 k2 x :
  NoDup l → (a1 + k1 ≤ a2)%nat →
  x ∈ take k1 (drop a1 l) → x ∉ take k2 (drop a2 l).
Proof.
  intros Hnd Hle H1 H2.
  apply elem_of_take in H1 as (i1 & H1 & Hi1).
  apply elem_of_take in H2 as (i2 & H2 & Hi2).
  rewrite lookup_drop in H1, H2.
  pose proof (NoDup_lookup l _ _ x Hnd H1 H2). lia.
Qed.

(** X1. Within an epoch every batch holds exactly [batch_size] indices, no
    index twice, and two different batches share no index. *)
Theorem batches_are_full_and_disjoint g (n b1 b2 : Z)
  (Hperm : indices g ≡ₚ seq 0 (size g)) (Hlen : len g = inr n)
  (H1 : 0 ≤ b1 < n) (H2 : 0 ≤ b2 < n) (Hne : b1 ≠ b2) :
  length (batch_indices g b1) = Z.to_nat (batch_size g) ∧
  NoDup (batch_indices g b1) ∧
  ∀ i, i ∈ batch_indices g b1 → i ∉ batch_indices g b2.
Proof.
  assert (Hl : length (indices g) = size g) by (by rewrite Hperm, length_seq).
  assert (Hnd : NoDup (indices g)) by (rewrite Hperm; apply NoDup_seq).
  destruct (batch_indices_length g b1 n Hl Hlen H1) as [Hpos Hlb].
  rewrite (batch_indices_explicit g n b1 Hl Hlen H1) in *.
  rewrite (batch_indices_explicit g n b2 Hl Hlen H2).
  split; [done|]. split.
  - eapply sublist_NoDup; [exact Hnd|].
    etransitivity; [apply sublist_take|apply sublist_drop].
  - intros i Hi.
    destruct (Z.lt_trichotomy b1 b2) as [Hlt|[?|Hgt]]; [|done|].
    + eapply slices_disjoint; [exact Hnd| |exact Hi]. nia.
    + intros Hi2. eapply slices_disjoint; [exact Hnd| |exact Hi2|exact Hi]. nia.
Qed.

Lemma batches_are_full_and_disjoint_witness :
  ∃ g s',
    DraftGenerator_init draft_frame cards3 2 true true false false stream0
      = inr (g, s') ∧
    indices (draft_base g) ≡ₚ seq 0 (size (draft_base g)) ∧
    len (draft_base g) = inr 2 ∧
    length (batch_indices (draft_base g) 0) = 2%nat ∧
    NoDup (batch_indices (draft_base g) 0) ∧
    ∀ i, i ∈ batch_indices (draft_base g) 0 →
         i ∉ batch_indices (draft_base g) 1.
Proof.
  destruct (DraftGenerator_init draft_frame cards3 2 true true false false stream0)
    as [e|[g s']] eqn:E; [vm_compute in E; discriminate|].
  pose proof (draft_init_inv _ _ _ _ _ _ _ _ _ _ E) as [[_ _ _ _ Hperm _] _].
  assert (Hlen : len (draft_base g) = inr 2).
  { vm_compute in E. injection E as <- _. reflexivity. }
  exists g, s'. split; [reflexivity|]. split; [exact Hperm|].
  split; [exact Hlen|].
  assert (H1 : 0 ≤ 0 < 2) by lia. assert (H2 : 0 ≤ 1 < 2) by lia.
  assert (Hne : 0 ≠ 1) by lia.
  pose proof (batches_are_full_and_disjoint (draft_base g) 2 0 1
                Hperm Hlen H1 H2 Hne) as R.
  assert (Hb : batch_size (draft_base g) = 2).
  { vm_compute in E. injection E as <- _. reflexivity. }
  rewrite Hb in R. exact R.
Defined.

(** X2. With a positive batch size the batches of an epoch, in order, are
    the first [length() * batch_size] stored indices; the remaining
    [size mod batch_size] indices are what the slice at batch number
    [length()] would hold, and no batch of the epoch serves them. *)
Theorem epoch_serves_prefix g (n : Z)
  (Hl : length (indices g) = size g) (Hpos : 0 < batch_size g)
  (Hlen : len g = inr n) :
  let m := Z.to_nat (batch_size g) in
  flat_map (fun b => batch_indices g (Z.of_nat b)) (seq 0 (Z.to_nat n))
    = take (Z.to_nat n * m) (indices g) ∧
  batch_indices g n = drop (Z.to_nat n * m) (indices g) ∧
  length (batch_indices g n)
    = Z.to_nat (Z.of_nat (size g) mod batch_size g).
Proof.
  intros m.
  assert (Hn : n = Z.of_nat (size g) / batch_size g).
  { unfold len, floordiv in Hlen.
    destruct (Z.eqb_spec (batch_size g) 0); [lia|]. by injection Hlen as <-. }
  pose proof (Z.mul_div_le (Z.of_nat (size g)) (batch_size g) Hpos) as Hle.
  pose proof (Z.mod_pos_bound (Z.of_nat (size g)) (batch_size g) Hpos) as Hmod.
  pose proof (Z_div_mod_eq_full (Z.of_nat (size g)) (batch_size g)) as Hdm.
  assert (Hn0 : 0 ≤ n) by (subst n; apply Z.div_pos; lia).
  assert (Hrest : batch_indices g n = drop (Z.to_nat n * m) (indices g)).
  { unfold batch_indices, py_slice, slice_bound. rewrite Hl.
    destruct (Z.ltb_spec (n * batch_size g) 0); [nia|].
    destruct (Z.ltb_spec ((n + 1) * batch_size g) 0); [nia|].
    replace (Z.to_nat ((n * batch_size g) `min` Z.of_nat (size g)))
      with (Z.to_nat n * m)%nat by (subst m; nia).
    apply take_ge. rewrite length_drop. subst m. nia. }
  split; [|split; [exact Hrest|]].
  - assert (Hk : ∀ k, (k ≤ Z.to_nat n)%nat →
              flat_map (fun b => batch_indices g (Z.of_nat b)) (seq 0 k)
              = take (k * m) (indices g)).
    { induction k as [|k IH]; intros Hk; [done|].
      rewrite seq_S, flat_map_app, IH by lia. simpl. rewrite app_nil_r.
      rewrite (batch_indices_explicit g n (Z.of_nat k) Hl Hlen) by lia.
      rewrite Nat2Z.id. fold m. rewrite take_take_drop. f_equal. lia. }
    by apply Hk.
  - rewrite Hrest, length_drop, Hl. subst m. nia.
Qed.

Lemma epoch_serves_prefix_witness :
  ∃ g s',
    DeckGenerator_init deck_frame cards8 3 false true true true stream0
      = inr (g, s') ∧
    length (indices (deck_base g)) = size (deck_base g) ∧
    0 < batch_size (deck_base g) ∧ len (deck_base g) = inr 1 ∧
    flat_map (fun b => batch_indices (deck_base g) (Z.of_nat b)) (seq 0 1)
      = [0; 1; 2]%nat ∧
    batch_indices (deck_base g) 1 = [3%nat].
Proof.
  destruct (DeckGenerator_init deck_frame cards8 3 false true true true stream0)
    as [e|[g s']] eqn:E; [vm_compute in E; discriminate|].
  vm_compute in E. injection E as <- <-.
  eexists _, _. split; [reflexivity|].
  match goal with |- length (indices ?G) = _ ∧ _ => set (g := G) end.
  assert (Hl : length (indices g) = size g) by reflexivity.
  assert (Hpos : 0 < batch_size g) by reflexivity.
  assert (Hlen : len g = inr 1) by reflexivity.
  split; [exact Hl|]. split; [exact Hpos|]. split; [exact Hlen|].
  destruct (epoch_serves_prefix g 1 Hl Hpos Hlen) as (R1 & R2 & _).
  split; [exact R1|exact R2].
Defined.

(** X3. A batch size larger than the dataset leaves [length()] at 0: a
    pass yields no batch at all, whatever the class. *)
Theorem oversized_batch_yields_nothing `{Generator G X Y} (gen : G) (s : rng)
  (Hbig : Z.of_nat (size (base gen)) < batch_size (base gen)) :
  len (base gen) = inr 0 ∧ iter_batches gen s = inr [].
Proof.
  assert (Hlen : len (base gen) = inr 0).
  { unfold len, floordiv.
    destruct (Z.eqb_spec (batch_size (base gen)) 0); [lia|].
    unfold ret. f_equal. apply Z.div_small. lia. }
  split; [exact Hlen|]. unfold iter_batches. by rewrite Hlen.
Qed.

Lemma oversized_batch_yields_nothing_witness :
  ∃ g s',
    DraftGenerator_init draft_frame cards3 5 true true false false stream0
      = inr (g, s') ∧
    Z.of_nat (size (base g)) < batch_size (base g) ∧
    len (base g) = inr 0 ∧ iter_batches g s' = inr [].
Proof.
  destruct (DraftGenerator_init draft_frame cards3 5 true true false false stream0)
    as [e|[g s']] eqn:E; [vm_compute in E; discriminate|].
  assert (Hbig : Z.of_nat (size (base g)) < batch_size (base g)).
  { vm_compute in E. injection E as <- _. reflexivity. }
  exists g, s'. split; [reflexivity|]. split; [exact Hbig|].
  exact (oversized_batch_yields_nothing g s' Hbig).
Defined.

(** ** The card vocabulary, continued *)

Lemma insert_by_idx_Sorted c l :
  Sorted Z.le (map idx l) → Sorted Z.le (map idx (insert_by_idx c l)).
Proof.
  induction l as [|c' l IH]; simpl; intros Hs; [by repeat constructor|].
  destruct (Z.leb_spec (idx c) (idx c')).
  - simpl. constructor; [done|]. by constructor.
  - simpl. apply Sorted_inv in Hs as [Hs Hhd]. constructor; [by apply IH|].
    destruct l as [|c'' l]; simpl.
    + constructor. lia.
    + destruct (Z.leb_spec (idx c) (idx c'')); simpl; constructor;
        [lia|by inversion Hhd].
Qed.

Lemma sort_values_Sorted l : Sorted Z.le (map idx (sort_values l)).
Proof.
  induction l as [|c l IH]; simpl; [constructor|]. by apply insert_by_idx_Sorted.
Qed.

Lemma seq_Sorted j n : Sorted Z.le (map Z.of_nat (seq j n)).
Proof.
  revert j; induction n as [|n IH]; intros j; simpl; [constructor|].
  constructor; [apply IH|]. destruct n; simpl; constructor. lia.
Qed.

Lemma sorted_contiguous cards0 :
  map idx cards0 ≡ₚ map Z.of_nat (seq 0 (length cards0)) →
  map idx (sort_values cards0) = map Z.of_nat (seq 0 (length cards0)).
Proof.
  intros Hp. apply (Sorted_unique Z.le).
  - apply sort_values_Sorted.
  - apply seq_Sorted.
  - rewrite <- Hp. apply fmap_Permutation, sort_values_perm.
Qed.

Lemma constructed_n_cards data cards0 bs sh tf eb sb cls g :
  constructed data cards0 bs sh tf eb sb cls g →
  n_cards g = length (cards g).
Proof.
  assert (Hw : ∀ ggd prefixes s g s',
            init_with ggd data cards0 prefixes bs sh tf eb sb s = inr (g, s') →
            n_cards g = length (cards g)).
  { intros ggd prefixes s g0 s' H. unfold init_with in H. inv_bind H.
    destruct a as [a w]. injection H as H.
    set (g1 := mkGen _ _ _ _ _ _ _ _ _ _ _ _) in H.
    pose proof (reset_indices_fields g1 s) as (Hc&_&_&_&_&_&_&Hn).
    rewrite H in Hc, Hn. simpl in *. by rewrite Hc, Hn. }
  intros [prefixes s g0 s' _ H | s g0 s' H | s g0 s' H].
  - by eapply Hw.
  - unfold DraftGenerator_init in H. inv_bind H. destruct a as [g1 s1].
    apply Hw in Ha. inv_bind H. destruct a as [[a w] [[[ids t_] pk] ps]].
    pose proof (reset_indices_fields (set_size g1 (length ids)) s1)
      as (Hc&_&_&_&_&_&_&Hn).
    destruct (reset_indices _ s1) as [g2 s2]. injection H as <- <-.
    simpl in *. congruence.
  - unfold DeckGenerator_init, MTGDataGenerator_init in H. inv_bind H.
    destruct a as [g1 s1]. injection H as <- <-. by eapply Hw.
Qed.

Lemma map_drop_comm {A B} (f : A → B) n l : map f (drop n l) = drop n (map f l).
Proof.
  revert l; induction n as [|n IH]; intros [|x l]; simpl; try done.
Qed.

Lemma shift_seq (k j m : nat) :
  map (fun z => z - Z.of_nat k) (map Z.of_nat (seq (k + j) m))
  = map Z.of_nat (seq j m).
Proof.
  revert j; induction m as [|m IH]; intros j; simpl; [done|].
  f_equal; [lia|]. rewrite <- (IH (S j)). by rewrite Nat.add_succ_r.
Qed.

Lemma drop_shift_seq n :
  map (fun z => z - 5) (drop 5 (map Z.of_nat (seq 0 n)))
  = map Z.of_nat (seq 0 (n - 5)).
Proof.
  destruct (decide (n ≤ 5)%nat) as [Hle|Hgt].
  - rewrite drop_ge by (rewrite length_map, length_seq; lia).
    by replace (n - 5)%nat with O by lia.
  - replace n with (5 + (n - 5))%nat at 1 by lia.
    rewrite seq_app, map_app, drop_app_length'
      by (by rewrite length_map, length_seq).
    apply (shift_seq 5 0).
Qed.

(** X4. On a card table whose [idx] values are [0 .. n-1] in any order, the
    stored vocabulary is in [idx] order and numbered [0 .. n_cards-1]
    again after the five reserved rows are dropped; [n_cards] is [n], or
    [n - 5] with the exclusion. *)
Theorem vocabulary_is_contiguous data cards0 bs sh tf eb sb cls g
  (Hc : constructed data cards0 bs sh tf eb sb cls g)
  (Hidx : map idx cards0 ≡ₚ map Z.of_nat (seq 0 (length cards0))) :
  n_cards g = (length cards0 - (if eb then 5 else 0))%nat ∧
  map idx (cards g) = map Z.of_nat (seq 0 (n_cards g)) ∧
  map name (cards g)
    = drop (if eb then 5 else 0) (map name (sort_values cards0)).
Proof.
  pose proof (constructed_n_cards _ _ _ _ _ _ _ _ _ Hc) as Hn.
  destruct (constructed_established _ _ _ _ _ _ _ _ _ Hc) as [Hcards _ _ _ _ _].
  pose proof (sorted_contiguous cards0 Hidx) as Hs.
  assert (Hlen : length (sort_values cards0) = length cards0)
    by (by rewrite sort_values_perm).
  rewrite Hn, Hcards. unfold prepare_cards. destruct eb.
  - rewrite length_map, length_drop, Hlen. split; [done|]. split.
    + rewrite map_map. simpl.
      rewrite <- (map_map idx (fun z => z - 5)), map_drop_comm, Hs.
      apply drop_shift_seq.
    + rewrite map_map. simpl. apply map_drop_comm.
  - rewrite Hlen, Nat.sub_0_r. split; [done|]. split; [done|]. by rewrite drop_0.
Qed.

Lemma vocabulary_is_contiguous_witness :
  ∃ g, constructed deck_frame cards8 2 true true true true DeckGenerator_class g ∧
       map idx cards8 ≡ₚ map Z.of_nat (seq 0 (length cards8)) ∧
       n_cards g = 3%nat ∧ map idx (cards g) = [0; 1; 2] ∧
       map name (cards g) = ["bear"; "goblin"; "elf"].
Proof.
  destruct (DeckGenerator_init deck_frame cards8 2 true true true true stream0)
    as [e|[g s']] eqn:E; [vm_compute in E; discriminate|].
  exists (deck_base g).
  pose proof (constructed_deck _ _ _ _ _ _ _ _ _ _ E) as Hc.
  assert (Hidx : map idx cards8 ≡ₚ map Z.of_nat (seq 0 (length cards8))).
  { apply NoDup_Permutation; [by_computation|by_computation|].
    intros x. split; intros Hx.
    - repeat (apply elem_of_cons in Hx as [->|Hx]; [by_computation|]).
      by apply elem_of_nil in Hx.
    - repeat (apply elem_of_cons in Hx as [->|Hx]; [by_computation|]).
      by apply elem_of_nil in Hx. }
  split; [exact Hc|]. split; [exact Hidx|].
  destruct (vocabulary_is_contiguous _ _ _ _ _ _ _ _ _ Hc Hidx) as (R1 & R2 & R3).
  split; [exact R1|]. rewrite R1 in R2. split; [exact R2|exact R3].
Defined.

(** X5. A lookup raises (the empty selection has no first row) exactly when
    the name, or the index, is not in the stored vocabulary; a name that
    is found returns the [idx] of a card carrying it. *)
Theorem lookup_fails_exactly_when_absent (g : MTGDataGenerator)
  (card_name : string) (card_idx : Z) (e : bool) :
  (card_name_to_idx g card_name e = inl IndexError
   ↔ card_name ∉ map name (cards g)) ∧
  (card_idx_to_name g card_idx e = inl IndexError
   ↔ card_idx ∉ map idx (cards g)) ∧
  (∀ i, card_name_to_idx g card_name e = inr i →
        ∃ c, c ∈ cards g ∧ name c = card_name ∧ idx c = i).
Proof.
  unfold card_name_to_idx, card_idx_to_name. repeat split.
  - destruct (filter _ _) as [|c r] eqn:E; [|discriminate].
    intros _ Hin. apply list_elem_of_fmap in Hin as (c & -> & Hc).
    by eapply (filter_nil_not_elem_of _ _ c E).
  - intros Hn. destruct (filter _ _) as [|c r] eqn:E; [done|].
    apply filter_head in E as [<- Hc]. destruct Hn.
    by apply (list_elem_of_fmap_2 name).
  - destruct (filter _ _) as [|c r] eqn:E; [|discriminate].
    intros _ Hin. apply list_elem_of_fmap in Hin as (c & -> & Hc).
    by eapply (filter_nil_not_elem_of _ _ c E).
  - intros Hn. destruct (filter _ _) as [|c r] eqn:E; [done|].
    apply filter_head in E as [<- Hc]. destruct Hn.
    by apply (list_elem_of_fmap_2 idx).
  - intros i H. destruct (filter _ _) as [|c r] eqn:E; [discriminate|].
    injection H as <-. apply filter_head in E as [Hn Hc]. by exists c.
Qed.

Lemma prepare_cards_names_NoDup cards0 eb :
  NoDup (map name cards0) → NoDup (map name (prepare_cards cards0 eb)).
Proof.
  intros Hnd. unfold prepare_cards.
  assert (Hs : NoDup (map name (sort_values cards0))).
  { eapply NoDup_Permutation_proper; [|exact Hnd].
    apply fmap_Permutation, sort_values_perm. }
  destruct eb; [|done].
  rewrite map_map. simpl. rewrite map_drop_comm.
  eapply sublist_NoDup; [exact Hs|apply sublist_drop].
Qed.

(** X6. On a card table whose names are unique, looking up the name of an
    index of the vocabulary and then the index of that name gives the index
    back. *)
Theorem card_name_round_trip data cards0 bs sh tf eb sb cls g
  (Hc : constructed data cards0 bs sh tf eb sb cls g)
  (Hnames : NoDup (map name cards0))
  (i : Z) (Hi : i ∈ map idx (cards g)) (e1 e2 : bool) :
  ∃ n, card_idx_to_name g i e1 = inr n ∧ card_name_to_idx g n e2 = inr i.
Proof.
  destruct (constructed_established _ _ _ _ _ _ _ _ _ Hc) as [Hcards _ _ _ _ _].
  pose proof (prepare_cards_names_NoDup cards0 eb Hnames) as Hnd.
  rewrite <- Hcards in Hnd.
  apply list_elem_of_fmap in Hi as (c & -> & Hcin).
  unfold card_name_to_idx, card_idx_to_name.
  destruct (filter (fun c0 => idx c0 = idx c) (cards g)) as [|c1 r1] eqn:E1.
  { exfalso. by eapply (filter_nil_not_elem_of _ _ c E1). }
  apply filter_head in E1 as [Hidx1 Hin1].
  exists (name c1). split; [done|].
  destruct (filter (fun c0 => name c0 = name c1) (cards g)) as [|c2 r2] eqn:E2.
  { exfalso. by eapply (filter_nil_not_elem_of _ _ c1 E2). }
  apply filter_head in E2 as [Hname2 Hin2].
  rewrite (NoDup_map_inj name (cards g) c2 c1 Hnd Hin2 Hin1 Hname2).
  by rewrite Hidx1.
Qed.

Lemma card_name_round_trip_witness :
  ∃ g, constructed deck_frame cards8 2 true true true true DeckGenerator_class g ∧
       NoDup (map name cards8) ∧ 1 ∈ map idx (cards g) ∧
       ∃ n, card_idx_to_name g 1 true = inr n ∧
            card_name_to_idx g n true = inr 1.
Proof.
  destruct (DeckGenerator_init deck_frame cards8 2 true true true true stream0)
    as [e|[g s']] eqn:E; [vm_compute in E; discriminate|].
  exists (deck_base g).
  pose proof (constructed_deck _ _ _ _ _ _ _ _ _ _ E) as Hc.
  assert (Hnd : NoDup (map name cards8)) by by_computation.
  assert (Hi : 1 ∈ map idx (cards (deck_base g))).
  { rewrite (est_cards _ _ _ _ _ _ (constructed_established _ _ _ _ _ _ _ _ _ Hc)).
    by_computation. }
  split; [exact Hc|]. split; [exact Hnd|]. split; [exact Hi|].
  exact (card_name_round_trip _ _ _ _ _ _ _ _ _ Hc Hnd 1 Hi true true).
Defined.

(** X7. With the exclusion on and five cards or fewer in the table, the
    vocabulary is empty and every lookup raises. *)
Theorem small_table_has_no_vocabulary data cards0 bs sh tf sb cls g
  (Hc : constructed data cards0 bs sh tf true sb cls g)
  (Hsmall : (length cards0 ≤ 5)%nat) :
  cards g = [] ∧ n_cards g = O ∧
  ∀ card_name card_idx e,
    card_name_to_idx g card_name e = inl IndexError ∧
    card_idx_to_name g card_idx e = inl IndexError.
Proof.
  pose proof (constructed_n_cards _ _ _ _ _ _ _ _ _ Hc) as Hn.
  destruct (constructed_established _ _ _ _ _ _ _ _ _ Hc) as [Hcards _ _ _ _ _].
  assert (Hnil : cards g = []).
  { rewrite Hcards. unfold prepare_cards.
    rewrite drop_ge; [done|]. by rewrite sort_values_perm. }
  split; [exact Hnil|]. split; [by rewrite Hn, Hnil|].
  intros n i e. unfold card_name_to_idx, card_idx_to_name. by rewrite Hnil.
Qed.

Lemma small_table_has_no_vocabulary_witness :
  ∃ g, constructed deck_frame cards3 2 true true true true DeckGenerator_class g ∧
       (length cards3 ≤ 5)%nat ∧ cards g = [] ∧ n_cards g = O ∧
       card_name_to_idx g "bear" true = inl IndexError.
Proof.
  destruct (DeckGenerator_init deck_frame cards3 2 true true true true stream0)
    as [e|[g s']] eqn:E; [vm_compute in E; discriminate|].
  exists (deck_base g).
  pose proof (constructed_deck _ _ _ _ _ _ _ _ _ _ E) as Hc.
  assert (Hsmall : (length cards3 ≤ 5)%nat) by (simpl; lia).
  split; [exact Hc|]. split; [exact Hsmall|].
  destruct (small_table_has_no_vocabulary _ _ _ _ _ _ _ _ Hc Hsmall)
    as (R1 & R2 & R3).
  split; [exact R1|]. split; [exact R2|]. exact (proj1 (R3 "bear" 0 true)).
Defined.

(** ** Columns *)

Lemma prefix_app a b : String.prefix a (a +:+ b) = true.
Proof.
  induction a as [|c a IH]; simpl; [by destruct b|].
  destruct (Ascii.ascii_dec c c); [exact IH|done].
Qed.

Lemma prefix_refl x : String.prefix x x = true.
Proof.
  induction x as [|c x IH]; simpl; [done|].
  destruct (Ascii.ascii_dec c c); [exact IH|done].
Qed.

Lemma str_in_refl x : str_in x x = true.
Proof. destruct x; [done|]. cbn [str_in]. by rewrite prefix_refl. Qed.

Lemma str_in_app x a : str_in x (a +:+ x) = true.
Proof.
  induction a as [|c a IH]; [apply str_in_refl|].
  change (String c a +:+ x) with (String c (a +:+ x)).
  cbn [str_in]. rewrite IH. apply orb_true_r.
Qed.

Lemma app_assoc_string a b c : (a +:+ b) +:+ c = a +:+ (b +:+ c).
Proof.
  induction a as [|x a IH]; [reflexivity|].
  change (String x ((a +:+ b) +:+ c) = String x (a +:+ (b +:+ c))).
  by rewrite IH.
Qed.

(** X8. A column labelled [<prefix>_<basic>] is never kept in the main
    matrix when basics are excluded, and always kept when they are not (the
    stored basics matrix then repeats it). *)
Theorem basic_columns_and_kept_columns (prefix col : string) :
  basic_col prefix col = true →
  keep_col prefix (exclude_cards true) col = false ∧
  keep_col prefix (exclude_cards false) col = true.
Proof.
  unfold basic_col. intros H. apply existsb_exists in H as (x & Hx & Heq).
  apply String.eqb_eq in Heq. subst col.
  unfold keep_col, startswith, exclude_cards.
  rewrite <- app_assoc_string, prefix_app. 
  split; [|done]. rewrite andb_true_l. apply negb_false_iff.
  apply existsb_exists. exists x. split; [done|].
  rewrite app_assoc_string, <- app_assoc_string. apply str_in_app.
Qed.

Lemma basic_columns_and_kept_columns_witness :
  basic_col "deck" "deck_island" = true ∧
  keep_col "deck" (exclude_cards true) "deck_island" = false ∧
  keep_col "deck" (exclude_cards false) "deck_island" = true.
Proof.
  split; [reflexivity|].
  apply (basic_columns_and_kept_columns "deck" "deck_island"). reflexivity.
Defined.

Lemma select_row_none p cols row :
  (∀ c, c ∈ cols → p c = false) → select_row p cols row = [].
Proof.
  revert row; induction cols as [|c cols IH]; intros [|x row] H; simpl;
    try done.
  rewrite (H c) by left. apply IH. intros c' Hc'. apply H. by right.
Qed.

Lemma filter_none (p : string → bool) (cols : list string) :
  (∀ c, c ∈ cols → p c = false) → filter (fun c => p c = true) cols = [].
Proof.
  induction cols as [|c cols IH]; intros H; [done|].
  rewrite filter_cons, (H c) by left. simpl.
  apply IH. intros c' Hc'. apply H. by right.
Qed.

Lemma select_values_none p data :
  (∀ c, c ∈ columns data → p c = false) →
  ncols (select_values p data) = O ∧
  Forall (fun row => row = []) (rows (select_values p data)).
Proof.
  intros H. unfold select_values. simpl. split.
  - by rewrite filter_none.
  - apply list.Forall_forall. intros row Hrow.
    apply list_elem_of_fmap in Hrow as (r & -> & _). by apply select_row_none.
Qed.

Lemma deck_init_total data cards0 bs sh tf eb sb s :
  ∃ g s', DeckGenerator_init data cards0 bs sh tf eb sb s = inr (g, s').
Proof.
  unfold DeckGenerator_init, MTGDataGenerator_init, init_with,
    generate_global_data, deck_prefixes. simpl.
  destruct (reset_indices _ s) as [g s']. simpl. by eexists _, _.
Qed.

Lemma well_formed_weights data ix :
  well_formed data → (∀ i, i ∈ ix → (i < n_rows data)%nat) →
  ∃ r, batch_weights (ml_weights data) ix = inr r.
Proof.
  intros [_ Hw] Hix. apply batch_weights_total.
  intros ws i Hws Hi. rewrite (Hw ws Hws). by apply Hix.
Qed.

(** X9. A dataset without any [deck_] column does not stop the deck
    constructor: the deck matrix it stores has no columns (and one empty
    row per deck).  With the basics stored, every batch then fails with a
    [ValueError]. *)
Theorem unmatched_prefix_gives_empty_matrix data cards0 bs sh tf eb (s : rng)
  (Hwf : well_formed data)
  (Hno : ∀ c, c ∈ columns data → startswith c "deck_" = false) :
  ∃ g s' deck,
    DeckGenerator_init data cards0 bs sh tf eb true s = inr (g, s') ∧
    getattr_array (deck_base g) "deck" = inr deck ∧
    ncols deck = O ∧ length (rows deck) = n_rows data ∧
    Forall (fun row => row = []) (rows deck) ∧
    ∀ batch_number s1, getitem g batch_number s1 = inl ValueError.
Proof.
  destruct (deck_init_total data cards0 bs sh tf eb true s) as (g & s' & Hinit).
  exists g, s'.
  apply deck_init_established in Hinit as Hest.
  destruct Hest as (E & Hsz & Ha & Hw).
  destruct (deck_attrs eb true data) as (Hd & Hs & Hb). rewrite <- Ha in *.
  remember (select_values (keep_col "deck" (exclude_cards eb)) data) as deck
    eqn:Hdeck.
  assert (Hdl : length (rows deck) = n_rows data)
    by (rewrite Hdeck; apply select_values_rows).
  assert (ncols deck = O ∧ Forall (fun row => row = []) (rows deck))
    as [Hnc Hrows].
  { rewrite Hdeck. apply select_values_none.
    intros c Hc. unfold keep_col. change ("deck" +:+ "_") with "deck_".
    by rewrite (Hno c Hc). }
  clear Hdeck.
  exists deck. split; [exact Hinit|].
  unfold getattr_array. rewrite Hd. split; [done|]. split; [done|].
  split; [exact Hdl|]. split; [done|].
  intros b s1. unfold getitem. simpl. unfold deck_generate_data, getattr_array.
  rewrite Hd, Hs, Hb. cbn [bind ret].
  assert (Hix : ∀ i, i ∈ batch_indices (deck_base g) b → (i < n_rows data)%nat).
  { intros i Hi. rewrite <- Hsz.
    eapply batch_indices_bound; [apply (est_perm _ _ _ _ _ _ E)|exact Hi]. }
  destruct (index_rows_total deck (batch_indices (deck_base g) b))
    as (r1 & -> & Hr1).
  { intros i Hi. rewrite Hdl. by apply Hix. }
  cbn [bind].
  destruct (index_rows_total
              (select_values (keep_col "sideboard" (exclude_cards eb)) data)
              (batch_indices (deck_base g) b)) as (r2 & -> & Hr2).
  { intros i Hi. rewrite select_values_rows. by apply Hix. }
  cbn [bind].
  destruct (index_rows_total (select_values (basic_col "deck") data)
              (batch_indices (deck_base g) b)) as (r3 & -> & Hr3).
  { intros i Hi. rewrite select_values_rows. by apply Hix. }
  cbn [bind].
  destruct (np_add _ _) as [e|pools] eqn:Hadd.
  { unfold np_add in Hadd. cbn [ncols] in Hadd. rewrite Hnc in Hadd.
    destruct (0 =? _)%nat; [discriminate|].
    destruct (_ =? 1)%nat; [discriminate|].
    simpl in Hadd. by injection Hadd as <-. }
  cbn [bind]. rewrite Hw.
  destruct (well_formed_weights data (batch_indices (deck_base g) b) Hwf Hix)
    as [w ->].
  cbn [bind]. unfold sample_card_pairs, get_vectorized_sample. cbn [ncols rows].
  destruct (rand (length r1) s1) as [rs s2]. by rewrite Hnc.
Qed.

Lemma unmatched_prefix_gives_empty_matrix_witness :
  well_formed sideboard_only_frame ∧
  (∀ c, c ∈ columns sideboard_only_frame → startswith c "deck_" = false) ∧
  ∃ g s' deck,
    DeckGenerator_init sideboard_only_frame cards3 1 true true false true stream0
      = inr (g, s') ∧
    getattr_array (deck_base g) "deck" = inr deck ∧
    ncols deck = O ∧ length (rows deck) = n_rows sideboard_only_frame ∧
    Forall (fun row => row = []) (rows deck) ∧
    ∀ batch_number s1, getitem g batch_number s1 = inl ValueError.
Proof.
  assert (Hwf : well_formed sideboard_only_frame).
  { split; [by_computation|]. intros w H. discriminate. }
  assert (Hno : ∀ c, c ∈ columns sideboard_only_frame →
                     startswith c "deck_" = false).
  { apply (proj1 (list.Forall_forall _ _)). by_computation. }
  split; [exact Hwf|]. split; [exact Hno|].
  exact (unmatched_prefix_gives_empty_matrix sideboard_only_frame cards3 1
           true true false stream0 Hwf Hno).
Defined.

Lemma col_index_Some c cols : c ∈ cols → ∃ i, col_index c cols = Some i.
Proof.
  induction cols as [|c' cols IH]; intros H; [by apply elem_of_nil in H|].
  simpl. destruct (String.eqb_spec c c'); [by eexists|].
  apply elem_of_cons in H as [?|H]; [done|].
  destruct (IH H) as [i ->]. by eexists.
Qed.

Lemma col_index_None c cols : c ∉ cols → col_index c cols = None.
Proof.
  induction cols as [|c' cols IH]; intros H; [done|]. simpl.
  destruct (String.eqb_spec c c') as [->|]; [destruct H; left|].
  rewrite IH; [done|]. intros Hin. apply H. by right.
Qed.

Lemma column_present data c :
  c ∈ columns data → ∃ col, column data c = inr col.
Proof.
  intros H. unfold column. destruct (col_index_Some c _ H) as [i ->].
  by eexists.
Qed.

Lemma column_absent data c : c ∉ columns data → column data c = inl KeyError.
Proof. intros H. unfold column. by rewrite col_index_None. Qed.

Lemma icolumn_present f c :
  c ∈ icolumns f → ∃ sr, icolumn f c = inr sr.
Proof.
  intros H. unfold icolumn. destruct (col_index_Some c _ H) as [i ->].
  by eexists.
Qed.

Lemma icolumn_absent f c : c ∉ icolumns f → icolumn f c = inl KeyError.
Proof. intros H. unfold icolumn. by rewrite col_index_None. Qed.

(** X10. The draft constructor succeeds exactly when the dataset has the
    five columns it reads by name; if one is missing it raises
    [KeyError]. *)
Theorem draft_constructor_needs_its_columns data cards0 bs sh tf eb sb
  (s : rng) :
  (Forall (fun c => c ∈ columns data) draft_required_columns →
   ∃ g s', DraftGenerator_init data cards0 bs sh tf eb sb s = inr (g, s')) ∧
  (¬ Forall (fun c => c ∈ columns data) draft_required_columns →
   DraftGenerator_init data cards0 bs sh tf eb sb s = inl KeyError).
Proof.
  assert (Hinit : ∀ r,
            draft_generate_global_data eb sb data = r →
            match r with
            | inl e => DraftGenerator_init data cards0 bs sh tf eb sb s = inl e
            | inr _ => ∃ g s', DraftGenerator_init data cards0 bs sh tf eb sb s
                               = inr (g, s')
            end).
  { intros r Hr. unfold DraftGenerator_init, init_with. rewrite Hr.
    destruct r as [e|[[a w] [[[ids t_] pk] ps]]]; [done|]. cbn [bind ret].
    destruct (reset_indices _ s) as [g1 s1]. cbn [bind].
    destruct (reset_indices _ s1) as [g2 s2]. by eexists _, _. }
  assert (Hkeys : ∀ f c, set_index data = inr f → is_key c = false →
                         (c ∈ icolumns f ↔ c ∈ columns data)).
  { intros f c Hf Hk. unfold set_index in Hf. inv_bind Hf. inv_bind Hf.
    injection Hf as <-. simpl. rewrite list_elem_of_filter. tauto. }
  unfold draft_required_columns.
  destruct (decide ("draft_id" ∈ columns data)) as [H1|H1];
    [|split; [intros H; by apply Forall_cons_1 in H as [? _]|intros _;
      apply (Hinit (inl KeyError)); unfold draft_generate_global_data;
      by rewrite (column_absent _ _ H1)]].
  destruct (decide ("position" ∈ columns data)) as [H2|H2];
    [|split; [intros H; by apply Forall_cons_1 in H as [_ [? _]%Forall_cons_1]|
      intros _; apply (Hinit (inl KeyError));
      unfold draft_generate_global_data;
      destruct (column_present _ _ H1) as [d ->];
      by rewrite (column_absent _ _ H2)]].
  destruct (column_present _ _ H1) as [d Hd].
  destruct (column_present _ _ H2) as [p Hp].
  assert (Hf : ∃ f, set_index data = inr f).
  { unfold set_index. rewrite Hd, Hp. by eexists. }
  destruct Hf as [f Hf].
  destruct (decide ("pick" ∈ columns data)) as [H3|H3];
    [|split; [intros H; by repeat (apply Forall_cons_1 in H as [? H])|
      intros _; apply (Hinit (inl KeyError));
      unfold draft_generate_global_data; rewrite Hd, Hp, Hf; cbn [bind];
      rewrite icolumn_absent; [done|by rewrite Hkeys]]].
  destruct (decide ("pack_number" ∈ columns data)) as [H4|H4];
    [|split; [intros H; by repeat (apply Forall_cons_1 in H as [? H])|
      intros _; apply (Hinit (inl KeyError));
      unfold draft_generate_global_data; rewrite Hd, Hp, Hf; cbn [bind];
      destruct (icolumn_present f "pick") as [pk ->]; [by rewrite Hkeys|];
      cbn [bind]; rewrite icolumn_absent; [done|by rewrite Hkeys]]].
  destruct (decide ("pick_number" ∈ columns data)) as [H5|H5];
    [|split; [intros H; by repeat (apply Forall_cons_1 in H as [? H])|
      intros _; apply (Hinit (inl KeyError));
      unfold draft_generate_global_data; rewrite Hd, Hp, Hf; cbn [bind];
      destruct (icolumn_present f "pick") as [pk ->]; [by rewrite Hkeys|];
      destruct (icolumn_present f "pack_number") as [pn ->]; [by rewrite Hkeys|];
      cbn [bind]; rewrite icolumn_absent; [done|by rewrite Hkeys]]].
  split.
  - intros _.
    destruct (icolumn_present f "pick") as [pk Hpk]; [by rewrite Hkeys|].
    destruct (icolumn_present f "pack_number") as [pn Hpn]; [by rewrite Hkeys|].
    destruct (icolumn_present f "pick_number") as [pi Hpi]; [by rewrite Hkeys|].
    eapply (Hinit (inr _)). unfold draft_generate_global_data.
    rewrite Hd, Hp, Hf. cbn [bind]. rewrite Hpk, Hpn, Hpi. reflexivity.
  - intros H. destruct H. by repeat constructor.
Qed.

(** ** Draft batches, continued *)

Lemma reshape_mismatch {A} (flat : list A) k tn c :
  length flat ≠ (k * tn * c)%nat →
  reshape flat k (Some (Z.of_nat tn)) c = inl ValueError.
Proof.
  intros H. unfold reshape.
  destruct (Z.eqb_spec (Z.of_nat tn) (-1)); [lia|].
  destruct (Z.ltb_spec (Z.of_nat tn) 0); [lia|].
  rewrite Nat2Z.id. destruct (Nat.eqb_spec (k * tn * c) (length flat)); [lia|done].
Qed.

(** [loc] on ids that each label at least one row: the blocks, one after
    the other *)
Lemma loc_counts {A} (keys : list (Z * Z)) (vals : list A) (ids : list Z)
  (Q : A → Prop) :
  length keys = length vals → Forall Q vals →
  (∀ d, d ∈ ids → (0 < length (filter (fun k => fst k = d) keys))%nat) →
  ∃ r, loc keys vals ids = inr r ∧
       length r
       = sum_list (map (fun d => length (filter (fun k => fst k = d) keys)) ids) ∧
       Forall Q r.
Proof.
  intros Hl HQ Hc. unfold loc.
  set (f := fun d : Z =>
              match filter (fun kv : Z * Z * A => fst (fst kv) = d)
                           (zip keys vals) with
              | [] => raise KeyError
              | l => ret (map snd l)
              end).
  assert (Hf : ∀ d, d ∈ ids →
            ∃ b, f d = inr b ∧
                 length b = length (filter (fun k => fst k = d) keys) ∧
                 Forall Q b).
  { intros d Hd. subst f. simpl.
    pose proof (filter_zip_fst_length (fun k => fst k = d) keys vals Hl) as Hf.
    pose proof (filter_zip_snd_Forall (fun kv => fst (fst kv) = d) Q keys vals HQ)
      as HQd.
    cbv beta in Hf. specialize (Hc d Hd). rewrite <- Hf in Hc.
    destruct (filter (fun kv => fst (fst kv) = d) (zip keys vals))
      as [|kv l] eqn:E; [simpl in Hc; lia|].
    eexists. split; [reflexivity|]. split; [|exact HQd].
    rewrite <- Hf. cbn [map length]. by rewrite length_map. }
  clearbody f. clear Hc.
  induction ids as [|d ids IH]; cbn [mapM].
  - exists []. by repeat split.
  - destruct IH as (r & Hr & Hlen & HQr); [intros; apply Hf; by right|].
    inv_bind Hr. injection Hr as <-.
    destruct (Hf d) as (b & Hb & Hbl & HQb); [left|].
    rewrite Hb, Ha. cbn [bind ret]. eexists. split; [reflexivity|].
    cbn [concat map sum_list sum_list_with].
    rewrite length_app, Hbl, Hlen. split; [done|].
    apply Forall_app. by split.
Qed.

(** The frames, keys and weights of a constructed draft generator. *)
Lemma draft_generator_parts data cards0 bs sh tf eb sb s0 s1 g :
  DraftGenerator_init data cards0 bs sh tf eb sb s0 = inr (g, s1) →
  well_formed data →
  ∃ f dcol pcol,
    column data "draft_id" = inr dcol ∧ column data "position" = inr pcol ∧
    draft_ids g = unique dcol ∧ ikeys f = zip dcol pcol ∧
    length dcol = n_rows data ∧ length pcol = n_rows data ∧
    length (ikeys f) = n_rows data ∧ length (ivalues f) = n_rows data ∧
    Forall (fun row => length row = length (icolumns f)) (ivalues f) ∧
    getattr_frame (draft_base g) "pack_card"
      = inr (iselect (keep_col "pack_card" (exclude_cards eb)) f) ∧
    getattr_frame (draft_base g) "pool"
      = inr (iselect (keep_col "pool" (exclude_cards eb)) f) ∧
    skeys (pick g) = ikeys f ∧ length (svalues (pick g)) = n_rows data ∧
    skeys (position g) = ikeys f ∧
    length (svalues (position g)) = n_rows data ∧
    weights (draft_base g) = ml_weights data.
Proof.
  intros Hinit Hwf.
  apply draft_init_inv in Hinit
    as (_ & a & w & ids & t_ & pk & ps & Hggd & Ha & Hw & Hids & Ht_ & Hpk & Hps & _).
  destruct (draft_ggd_inv _ _ _ _ _ _ _ _ _ Hggd Hwf)
    as (dcol & pcol & f & Hdcol & Hpcol & Hu & Htmax & Hweights & Hattrs & Hkeys
        & Hkl & Hvl & Hfrows & Hpkk & Hpkl & Hpsk & Hpsl).
  destruct (draft_attrs eb sb f) as [Hpack Hpool]. rewrite <- Hattrs, <- Ha in *.
  exists f, dcol, pcol. unfold getattr_frame. rewrite Hpack, Hpool, Hpk, Hps.
  apply column_length in Hdcol as Hdl. apply column_length in Hpcol as Hpl.
  repeat split; try done; congruence.
Qed.

(** X11. If the drafts of a batch do not label [k * t] rows in total, the
    batch cannot be reshaped and [generate_data] raises [ValueError]. *)
Theorem draft_batch_with_wrong_row_count data cards0 bs sh tf eb sb
  (s0 s1 : rng) (g : DraftGenerator) (indices : list nat) (ids : list Z)
  (tn : nat) (s : rng)
  (Hinit : DraftGenerator_init data cards0 bs sh tf eb sb s0 = inr (g, s1))
  (Hwf : well_formed data)
  (Hids : gather (draft_ids g) indices = inr ids)
  (Ht : t g = Some (Z.of_nat tn))
  (Hbad : sum_list (map (draft_rows g) ids) ≠ (length indices * tn)%nat) :
  draft_generate_data g indices s = inl ValueError.
Proof.
  destruct (draft_generator_parts _ _ _ _ _ _ _ _ _ _ Hinit Hwf)
    as (f & dcol & pcol & Hdcol & Hpcol & Hu & Hkeys & Hdl & Hpl & Hkl & Hvl
        & Hfrows & Hpack & Hpool & Hpkk & Hpkl & Hpsk & Hpsl & Hw).
  remember (iselect (keep_col "pack_card" (exclude_cards eb)) f) as F1 eqn:HF1.
  remember (iselect (keep_col "pool" (exclude_cards eb)) f) as F2 eqn:HF2.
  assert (HF1k : ikeys F1 = ikeys f) by (by rewrite HF1).
  assert (HF2k : ikeys F2 = ikeys f) by (by rewrite HF2).
  assert (HF1l : length (ivalues F1) = n_rows data)
    by (rewrite HF1; simpl; by rewrite length_map).
  assert (HF2l : length (ivalues F2) = n_rows data)
    by (rewrite HF2; simpl; by rewrite length_map).
  assert (HF1r : Forall (fun row => length row = length (icolumns F1)) (ivalues F1))
    by (rewrite HF1; by apply iselect_rows).
  assert (HF2r : Forall (fun row => length row = length (icolumns F2)) (ivalues F2))
    by (rewrite HF2; by apply iselect_rows).
  clear HF1 HF2.
  assert (Hcount : ∀ d, d ∈ ids →
            (0 < length (filter (fun kk : Z * Z => fst kk = d) (ikeys f)))%nat).
  { intros d Hd. rewrite Hkeys. apply key_rows_pos; [|lia].
    apply unique_elem_of. rewrite <- Hu. by eapply gather_elem_of. }
  assert (Hsum : sum_list (map (fun d => length (filter (fun k : Z * Z => fst k = d)
                                                        (ikeys f))) ids)
                 = sum_list (map (draft_rows g) ids)).
  { f_equal. apply map_ext. intros d. unfold draft_rows. by rewrite Hpkk. }
  unfold draft_generate_data. rewrite Hids, Hpack, Ht. cbn [bind].
  destruct (loc_counts (ikeys F1) (ivalues F1) ids
              (fun row => length row = length (icolumns F1)))
    as (r1 & -> & Hr1 & Hq1); [rewrite HF1k; lia|done|by rewrite HF1k|].
  rewrite HF1k, Hsum in Hr1. cbn [bind].
  destruct (decide (length (icolumns F1) = O)) as [Hc0|Hc0];
    [|rewrite reshape_mismatch;
      [done|rewrite (length_concat_const _ _ Hq1), Hr1; nia]].
  rewrite reshape_ok by (rewrite (length_concat_const _ _ Hq1), Hc0; lia).
  cbn [bind]. rewrite Hpool. cbn [bind].
  destruct (loc_counts (ikeys F2) (ivalues F2) ids
              (fun row => length row = length (icolumns F2)))
    as (r2 & -> & Hr2 & Hq2); [rewrite HF2k; lia|done|by rewrite HF2k|].
  cbn [bind].
  destruct (decide (length (concat r2) = O)) as [Hp0|Hp0];
    [|rewrite reshape_mismatch; [done|rewrite Hc0; lia]].
  rewrite reshape_ok by (rewrite Hp0, Hc0; lia). cbn [bind].
  destruct (loc_counts (skeys (pick g)) (svalues (pick g)) ids (fun _ => True))
    as (r3 & -> & Hr3 & _);
    [rewrite Hpkk; lia|by apply list.Forall_forall|by rewrite Hpkk|].
  rewrite Hpkk, Hsum in Hr3. cbn [bind].
  rewrite reshape_mismatch; [done|lia].
Qed.

Lemma draft_batch_with_wrong_row_count_witness :
  ∃ g s1,
    DraftGenerator_init ragged_frame cards3 2 false true false false stream0
      = inr (g, s1) ∧
    well_formed ragged_frame ∧
    gather (draft_ids g) [0; 1]%nat = inr [10; 11] ∧
    t g = Some 2 ∧
    sum_list (map (draft_rows g) [10; 11]) = 3%nat ∧
    draft_generate_data g [0; 1]%nat s1 = inl ValueError.
Proof.
  destruct (DraftGenerator_init ragged_frame cards3 2 false true false false stream0)
    as [e|[g s1]] eqn:E; [vm_compute in E; discriminate|].
  assert (Hwf : well_formed ragged_frame).
  { split; [by_computation|]. intros w H. discriminate. }
  pose proof E as E0. vm_compute in E0. injection E0 as <- <-.
  match type of E with _ = inr (?G, ?S) => set (g := G) in *; set (s1 := S) in * end.
  assert (Hids : gather (draft_ids g) [0; 1]%nat = inr [10; 11]) by reflexivity.
  assert (Ht : t g = Some (Z.of_nat 2)) by reflexivity.
  assert (Hsum : sum_list (map (draft_rows g) [10; 11]) = 3%nat) by reflexivity.
  assert (Hbad : sum_list (map (draft_rows g) [10; 11])
                 ≠ (length [0; 1]%nat * 2)%nat) by (rewrite Hsum; simpl; lia).
  exists g, s1. split; [reflexivity|]. split; [exact Hwf|].
  split; [exact Hids|]. split; [exact Ht|]. split; [exact Hsum|].
  exact (draft_batch_with_wrong_row_count _ _ _ _ _ _ _ _ _ g [0; 1]%nat
           [10; 11] 2%nat s1 E Hwf Hids Ht Hbad).
Defined.

Lemma concat_rows_layout {A} (c1 c2 : nat) (r1 r2 : list (list A)) :
  Forall (fun l => length l = c1) r1 → Forall (fun l => length l = c2) r2 →
  length r1 = length r2 →
  ∀ (j : nat) (pre1 pre2 : list A),
    length pre1 = (j * c1)%nat → length pre2 = (j * c2)%nat →
    flat_map (fun i => (take c1 (drop (i * c1) (pre1 ++ concat r1)) ++
                        take c2 (drop (i * c2) (pre2 ++ concat r2)))%list)
             (seq j (length r1))
    = concat (zip_with app r1 r2).
Proof.
  intros H1. revert r2. induction H1 as [|x r1 Hx H1 IH];
    intros [|y r2] H2 Hl j pre1 pre2 Hp1 Hp2; simpl in Hl; try done.
  apply list.Forall_cons in H2 as [Hy H2].
  cbn [length seq flat_map zip_with concat].
  rewrite <- Hp1, <- Hp2, !drop_app_length.
  rewrite take_app_length' by done. rewrite (take_app_length' y) by done.
  f_equal.
  replace (pre1 ++ x ++ concat r1)%list with ((pre1 ++ x) ++ concat r1)%list
    by (by rewrite <- app_assoc).
  replace (pre2 ++ y ++ concat r2)%list with ((pre2 ++ y) ++ concat r2)%list
    by (by rewrite <- app_assoc).
  apply IH; [done|lia| |]; rewrite length_app; lia.
Qed.

(** What [generate_data] returns on a batch of drafts with [tn] rows each:
    the rows that [loc] gathers, pack row and pool row side by side. *)
Lemma draft_generate_data_contents data cards0 bs sh tf eb sb (s0 s1 : rng)
  (g : DraftGenerator) (indices : list nat) (tn : nat) (s : rng) :
  DraftGenerator_init data cards0 bs sh tf eb sb s0 = inr (g, s1) →
  well_formed data →
  (∀ i, i ∈ indices → (i < length (draft_ids g))%nat) →
  t g = Some (Z.of_nat tn) →
  (∀ i d, i ∈ indices → draft_ids g !! i = Some d → draft_rows g d = tn) →
  attr_width (draft_base g) "pool" = attr_width (draft_base g) "pack_card" →
  let k := length indices in
  let c := attr_width (draft_base g) "pack_card" in
  ∃ ids pack_card pool pack_rows pool_rows pick_rows position_rows w,
    gather (draft_ids g) indices = inr ids ∧
    getattr_frame (draft_base g) "pack_card" = inr pack_card ∧
    getattr_frame (draft_base g) "pool" = inr pool ∧
    loc (ikeys pack_card) (ivalues pack_card) ids = inr pack_rows ∧
    loc (ikeys pool) (ivalues pool) ids = inr pool_rows ∧
    loc (skeys (pick g)) (svalues (pick g)) ids = inr pick_rows ∧
    loc (skeys (position g)) (svalues (position g)) ids = inr position_rows ∧
    batch_weights (weights (draft_base g)) indices = inr w ∧
    length pack_rows = (k * tn)%nat ∧ length pool_rows = (k * tn)%nat ∧
    length pick_rows = (k * tn)%nat ∧ length position_rows = (k * tn)%nat ∧
    Forall (fun row => length row = c) pack_rows ∧
    Forall (fun row => length row = c) pool_rows ∧
    draft_generate_data g indices s
    = inr ((astype (fun z => Fin (Qc_of_Z z))
              (mkTensor (k, tn, (c + c)%nat)
                        (concat (zip_with app pack_rows pool_rows))),
            astype wrap32 (mkTensor (k, tn, 1%nat) position_rows)),
           astype wrap32 (mkTensor (k, tn, 1%nat) pick_rows), w, s).
Proof.
  intros Hinit Hwf Hix Ht Hrows Hcols k c.
  destruct (draft_generator_parts _ _ _ _ _ _ _ _ _ _ Hinit Hwf)
    as (f & dcol & pcol & Hdcol & Hpcol & Hu & Hkeys & Hdl & Hpl & Hkl & Hvl
        & Hfrows & Hpack & Hpool & Hpkk & Hpkl & Hpsk & Hpsl & Hw).
  remember (iselect (keep_col "pack_card" (exclude_cards eb)) f) as F1 eqn:HF1.
  remember (iselect (keep_col "pool" (exclude_cards eb)) f) as F2 eqn:HF2.
  assert (HF1k : ikeys F1 = ikeys f) by (by rewrite HF1).
  assert (HF2k : ikeys F2 = ikeys f) by (by rewrite HF2).
  assert (HF1l : length (ivalues F1) = n_rows data)
    by (rewrite HF1; simpl; by rewrite length_map).
  assert (HF2l : length (ivalues F2) = n_rows data)
    by (rewrite HF2; simpl; by rewrite length_map).
  assert (HF1r : Forall (fun row => length row = length (icolumns F1)) (ivalues F1))
    by (rewrite HF1; by apply iselect_rows).
  assert (HF2r : Forall (fun row => length row = length (icolumns F2)) (ivalues F2))
    by (rewrite HF2; by apply iselect_rows).
  clear HF1 HF2.
  assert (Hc1 : c = length (icolumns F1)).
  { subst c. unfold attr_width, getattr_frame in *.
    destruct (attrs (draft_base g) !! "pack_card") as [[?|?]|]; try discriminate.
    by injection Hpack as ->. }
  assert (Hc2 : c = length (icolumns F2)).
  { subst c. rewrite <- Hcols. unfold attr_width, getattr_frame in *.
    destruct (attrs (draft_base g) !! "pool") as [[?|?]|]; try discriminate.
    by injection Hpool as ->. }
  clearbody c. rewrite <- Hc1 in HF1r. rewrite <- Hc2 in HF2r.
  destruct (gather_total (draft_ids g) indices Hix) as [ids Hg].
  assert (Hcount : ∀ d, d ∈ ids →
            length (filter (fun kk : Z * Z => fst kk = d) (ikeys f)) = tn).
  { intros d Hd. destruct (gather_elem_lookup _ _ _ _ Hg Hd) as (i & Hi & Hl).
    specialize (Hrows i d Hi Hl). unfold draft_rows in Hrows.
    by rewrite Hpkk in Hrows. }
  assert (Hpos : ids = [] ∨ (0 < tn)%nat).
  { destruct ids as [|d ids']; [by left|right].
    rewrite <- (Hcount d) by left. rewrite Hkeys. apply key_rows_pos; [|lia].
    apply unique_elem_of. rewrite <- Hu.
    eapply gather_elem_of; [exact Hg|left]. }
  assert (Hk : length ids = k) by (by apply gather_length in Hg).
  destruct (loc_ok (ikeys F1) (ivalues F1) ids tn (fun row => length row = c))
    as (r1 & Hl1 & Hr1 & Hq1); [rewrite HF1k; lia|done|done|by rewrite HF1k|].
  destruct (loc_ok (ikeys F2) (ivalues F2) ids tn (fun row => length row = c))
    as (r2 & Hl2 & Hr2 & Hq2); [rewrite HF2k; lia|done|done|by rewrite HF2k|].
  destruct (loc_ok (skeys (pick g)) (svalues (pick g)) ids tn (fun _ => True))
    as (r3 & Hl3 & Hr3 & _);
    [rewrite Hpkk; lia|done|by apply list.Forall_forall|by rewrite Hpkk|].
  destruct (loc_ok (skeys (position g)) (svalues (position g)) ids tn
              (fun _ => True))
    as (r4 & Hl4 & Hr4 & _);
    [rewrite Hpsk; lia|done|by apply list.Forall_forall|by rewrite Hpsk|].
  destruct (batch_weights_total (weights (draft_base g)) indices) as [bw Hbw].
  { intros ws i Hws Hi. rewrite Hw in Hws.
    destruct Hwf as [_ Hwl]. rewrite (Hwl ws Hws).
    specialize (Hix i Hi). rewrite Hu in Hix.
    pose proof (unique_length dcol). lia. }
  rewrite Hk in *.
  exists ids, F1, F2, r1, r2, r3, r4, bw.
  repeat (split; [done|]).
  unfold draft_generate_data. rewrite Hg, Hpack, Ht. cbn [bind].
  fold k. rewrite <- Hc1, Hl1. cbn [bind].
  rewrite (reshape_ok _ k tn c)
    by (rewrite (length_concat_const _ _ Hq1), Hr1; lia).
  cbn [bind]. rewrite Hpool. cbn [bind]. rewrite Hl2. cbn [bind].
  rewrite (reshape_ok _ k tn c)
    by (rewrite (length_concat_const _ _ Hq2), Hr2; lia).
  cbn [bind]. rewrite Hl3. cbn [bind].
  rewrite (reshape_ok _ k tn 1) by lia. cbn [bind].
  rewrite Hl4. cbn [bind]. rewrite (reshape_ok _ k tn 1) by lia. cbn [bind].
  unfold concatenate. cbn [shape buf]. rewrite !Nat.eqb_refl. cbn [andb bind].
  rewrite Hbw. cbn [bind ret]. do 4 f_equal. f_equal. f_equal.
  rewrite <- Hr1. f_equal.
  apply (concat_rows_layout c c r1 r2 Hq1 Hq2 ltac:(lia) O [] []); simpl; lia.
Qed.

Lemma concat_chunk {A} (m : nat) (rs : list (list A)) j r :
  Forall (fun l => length l = m) rs → rs !! j = Some r →
  take m (drop (j * m) (concat rs)) = r.
Proof.
  intros H. revert j; induction H as [|x rs Hx H IH]; intros [|j] Hj;
    simpl in *; try done.
  - injection Hj as ->. by apply take_app_length'.
  - replace (m + j * m)%nat with (length x + j * m)%nat by lia.
    rewrite drop_app_add. by apply IH.
Qed.





(** ** Sampling, continued *)

Lemma sample_row_scan r row :
  let q := Qc_of_Z (Z_sum row) in
  q ≠ 0%Qc →
  first_true (map (flt r) (cumsum (probabilities row)))
  = first_true (map (flt r)
      (cumsum_from (Fin (Qc_of_Z 0 / q))
                   (map (fun x => fdiv (Qc_of_Z x) q) row))).
Proof.
  intros q Hqz. unfold probabilities. fold q.
  destruct row as [|x0 l]; [done|]. simpl.
  rewrite (fdiv_Fin _ _ Hqz).
  assert (E : (Qc_of_Z 0 / q + Qc_of_Z x0 / q)%Qc = (Qc_of_Z x0 / q)%Qc).
  { rewrite Z2Qc_inj_0. unfold Qcdiv. ring. }
  simpl. by rewrite E.
Qed.

(** Where the scan of [cumsum] stops, the draw lies between the cumulative
    value before that position and the one at it. *)
Lemma first_true_interval (q r : Qc) (l : list Z) :
  q ≠ 0%Qc → ∀ (acc : Z) (j : nat),
  (Qc_of_Z acc / q ≤ r)%Qc →
  first_true (map (flt r)
    (cumsum_from (Fin (Qc_of_Z acc / q))
                 (map (fun x => fdiv (Qc_of_Z x) q) l))) = Some j →
  (Qc_of_Z (acc + Z_sum (take j l)) / q ≤ r)%Qc ∧
  (r < Qc_of_Z (acc + Z_sum (take (S j) l)) / q)%Qc.
Proof.
  intros Hqz. induction l as [|x l IH]; intros acc j Hlo Hj; [done|].
  simpl in Hj. rewrite (fdiv_Fin _ _ Hqz) in Hj. simpl in Hj.
  assert (E : (Qc_of_Z acc / q + Qc_of_Z x / q)%Qc = (Qc_of_Z (acc + x) / q)%Qc).
  { rewrite Z2Qc_inj_add. unfold Qcdiv. ring. }
  rewrite E in Hj.
  destruct (decide (r < Qc_of_Z (acc + x) / q)%Qc) as [Hlt|Hge].
  - rewrite bool_decide_eq_true_2 in Hj by done. injection Hj as <-.
    cbn [take]. rewrite Z_sum_cons. unfold Z_sum at 1 2. simpl.
    rewrite !Z.add_0_r. done.
  - rewrite bool_decide_eq_false_2 in Hj by done. simpl in Hj.
    destruct (first_true _) as [j'|] eqn:Hj'; [|done].
    injection Hj as <-.
    destruct (IH (acc + x) j') as [H1 H2]; [by apply Qcnot_lt_le|done|].
    cbn [take]. rewrite !Z_sum_cons, !Z.add_assoc. done.
Qed.



Lemma Z_sum_zeros l : Forall (fun x => x = 0) l → Z_sum l = 0.
Proof.
  induction 1 as [|x l -> _ IH]; [done|]. rewrite Z_sum_cons. lia.
Qed.

Lemma two_nonzero_positive row :
  Forall (fun x => 0 ≤ x) row → two_nonzero row → 0 < Z_sum row.
Proof.
  intros Hn (j & k & x & y & _ & Hj & _ & Hx & _).
  apply (Z_sum_pos row j x Hn Hj).
  rewrite list.Forall_forall in Hn.
  assert (0 ≤ x) by (by eapply Hn, list_elem_of_lookup_2). lia.
Qed.

Lemma zeroed_row_sample_held r row a :
  (0 ≤ r)%Qc → (r < 1)%Qc → Forall (fun x => 0 ≤ x) row → two_nonzero row →
  ∃ y, row !! sample_row r (<[a := 0]> row) = Some y ∧ 0 < y.
Proof.
  intros Hr0 Hr1 Hn H2.
  destruct (zeroed_row_positive row a Hn H2) as [Hn' Hs].
  destruct (sample_row_positive r _ Hr0 Hr1 Hn' Hs) as (y & Hy & Hpos).
  exists y. split; [|done].
  destruct (decide (sample_row r (<[a := 0]> row) = a)) as [E|N].
  - rewrite E in Hy. pose proof (lookup_lt_Some _ _ _ Hy) as Hlt.
    rewrite length_insert in Hlt.
    rewrite list_lookup_insert_eq in Hy by done. injection Hy as <-. lia.
  - by rewrite list_lookup_insert_ne in Hy.
Qed.



(** X16. A row whose sideboard is empty (all counts 0) gets card 0 as its
    negative sample, whatever the random draws and whatever the anchor; a
    row whose deck holds copies of one card only gets card 0 as its
    positive sample. *)
Theorem empty_remainder_samples_card_0 (decks sideboards : ndarray) (s s' : rng)
  (anchors positive_samples negative_samples : list nat)
  (i : nat) (deck sideboard : list Z)
  (Hs : sample_card_pairs decks sideboards s
        = inr (anchors, positive_samples, negative_samples, s'))
  (Hd : rows decks !! i = Some deck)
  (Hsb : rows sideboards !! i = Some sideboard) :
  (Forall (fun x => x = 0) sideboard → negative_samples !! i = Some O) ∧
  (∀ a, anchors !! i = Some a → Forall (fun x => x = 0) (<[a := 0]> deck) →
        positive_samples !! i = Some O).
Proof.
  unfold sample_card_pairs in Hs.
  inv_bind Hs. destruct a as [anchors0 s1].
  inv_bind Hs. rename a into dwa. inv_bind Hs. rename a into swa.
  inv_bind Hs. destruct a as [pos0 s2].
  inv_bind Hs. destruct a as [neg0 s3].
  injection Hs as <- <- <- <-.
  destruct (get_vectorized_sample_inv _ _ _ _ i deck Ha Hd)
    as (r1 & _ & _ & Hanchor).
  assert (Hi : (i < length (rows decks))%nat) by (by eapply lookup_lt_Some).
  pose proof (zero_at_lookup _ _ _ _ i deck _ Ha0 Hi Hd Hanchor) as Hdwa.
  pose proof (zero_at_lookup _ _ _ _ i sideboard _ Ha1 Hi Hsb Hanchor) as Hswa.
  destruct (get_vectorized_sample_inv _ _ _ _ i _ Ha2 Hdwa)
    as (r2 & _ & _ & Hpos).
  destruct (get_vectorized_sample_inv _ _ _ _ i _ Ha3 Hswa)
    as (r3 & _ & _ & Hneg).
  split.
  - intros Hz. rewrite Hneg. f_equal. apply sample_row_zero_sum.
    apply Z_sum_zeros. by apply Forall_insert.
  - intros a Ha' Hz. rewrite Hanchor in Ha'. injection Ha' as <-.
    rewrite Hpos. f_equal. apply sample_row_zero_sum. by apply Z_sum_zeros.
Qed.

Lemma empty_remainder_samples_card_0_witness :
  ∃ anchors positive_samples negative_samples s',
    sample_card_pairs (mkArray 3 [[0; 4; 0]; [1; 1; 1]])
                      (mkArray 3 [[0; 0; 0]; [1; 1; 0]]) stream0
      = inr (anchors, positive_samples, negative_samples, s') ∧
    anchors !! O = Some 1%nat ∧
    positive_samples !! O = Some O ∧
    negative_samples !! O = Some O.
Proof.
  destruct (sample_card_pairs (mkArray 3 [[0; 4; 0]; [1; 1; 1]])
              (mkArray 3 [[0; 0; 0]; [1; 1; 0]]) stream0)
    as [e|[[[anchors positive_samples] negative_samples] s']] eqn:E;
    [vm_compute in E; discriminate|].
  assert (Ha : anchors !! O = Some 1%nat).
  { vm_compute in E. by injection E as <- _ _ _. }
  destruct (empty_remainder_samples_card_0 _ _ _ _ _ _ _ O [0; 4; 0] [0; 0; 0] E
              eq_refl eq_refl) as [Hn Hp].
  exists anchors, positive_samples, negative_samples, s'.
  split; [reflexivity|]. split; [exact Ha|]. split.
  - apply (Hp 1%nat Ha). repeat constructor.
  - apply Hn. repeat constructor.
Defined.

(** ** Deck batches, continued *)

Lemma gather_lookup {A} (l : list A) ix r j i :
  gather l ix = inr r → ix !! j = Some i → r !! j = l !! i.
Proof.
  intros H Hj. destruct (mapM_lookup _ _ _ _ _ H Hj) as (y & Hy & Hf).
  rewrite Hy. destruct (l !! i); [|discriminate]. by injection Hf as ->.
Qed.

Lemma first_true_bound l j : first_true l = Some j → (j < length l)%nat.
Proof.
  revert j; induction l as [|b l IH]; intros j H; simpl in *; [done|].
  destruct b; [injection H as <-; lia|].
  destruct (first_true l) as [j'|]; [|done].
  injection H as <-. specialize (IH j' eq_refl). lia.
Qed.

Lemma cumsum_from_length acc l : length (cumsum_from acc l) = length l.
Proof. revert acc; induction l as [|x l IH]; intros acc; simpl; [done|]. by rewrite IH. Qed.

Lemma cumsum_length l : length (cumsum l) = length l.
Proof. destruct l; simpl; [done|]. by rewrite cumsum_from_length. Qed.

Lemma sample_row_bound r row :
  (0 < length row)%nat → (sample_row r row < length row)%nat.
Proof.
  intros H. unfold sample_row, argmax.
  destruct (first_true _) as [j|] eqn:E; simpl; [|done].
  apply first_true_bound in E.
  rewrite length_map, cumsum_length in E. unfold probabilities in E.
  by rewrite length_map in E.
Qed.

Lemma get_vectorized_sample_ok mtx s :
  (0 < ncols mtx)%nat →
  Forall (fun row => length row = ncols mtx) (rows mtx) →
  ∃ samples s',
    get_vectorized_sample mtx s = inr (samples, s') ∧
    length samples = length (rows mtx) ∧
    Forall (fun a => (a < ncols mtx)%nat) samples.
Proof.
  intros Hc Hr. unfold get_vectorized_sample.
  pose proof (rand_length (length (rows mtx)) s) as Hl.
  destruct (rand _ s) as [rs s1]. simpl in Hl.
  destruct (Nat.eqb_spec (ncols mtx) 0); [lia|].
  eexists _, _. split; [done|]. split.
  - rewrite length_zip_with. lia.
  - apply list.Forall_forall. intros a Ha.
    apply elem_of_lookup_zip_with in Ha as (i & r & row & -> & _ & Hrow).
    rewrite list.Forall_forall in Hr.
    assert (Hlen : length row = ncols mtx)
      by (by eapply Hr, list_elem_of_lookup_2).
    rewrite <- Hlen. apply sample_row_bound. lia.
Qed.

Lemma forallb_ltb n l :
  Forall (fun a => (a < n)%nat) l → forallb (fun a => (a <? n)%nat) l = true.
Proof.
  induction 1 as [|a l Ha _ IH]; [done|]. simpl.
  rewrite IH. by rewrite (proj2 (Nat.ltb_lt a n) Ha).
Qed.

Lemma zero_at_ok m anchors :
  length anchors = length (rows m) →
  Forall (fun a => (a < ncols m)%nat) anchors →
  Forall (fun row => length row = ncols m) (rows m) →
  ∃ m', zero_at m (length (rows m)) anchors = inr m' ∧
        ncols m' = ncols m ∧ length (rows m') = length (rows m) ∧
        Forall (fun row => length row = ncols m) (rows m').
Proof.
  intros Hl Ha Hr. unfold zero_at. rewrite Nat.ltb_irrefl.
  replace (take (length (rows m)) anchors) with anchors
    by (rewrite <- Hl; symmetry; apply firstn_all).
  rewrite (forallb_ltb _ _ Ha).
  eexists. split; [done|]. cbn [ncols rows].
  rewrite firstn_all, skipn_all, app_nil_r. split; [done|]. split.
  - rewrite length_zip_with. lia.
  - apply list.Forall_forall. intros row Hrow.
    apply elem_of_lookup_zip_with in Hrow as (i & row0 & a & -> & Hrow0 & _).
    rewrite length_insert. rewrite list.Forall_forall in Hr.
    by eapply Hr, list_elem_of_lookup_2.
Qed.

Lemma sample_card_pairs_ok decks sideboards s :
  (0 < ncols decks)%nat → ncols sideboards = ncols decks →
  length (rows sideboards) = length (rows decks) →
  Forall (fun row => length row = ncols decks) (rows decks) →
  Forall (fun row => length row = ncols decks) (rows sideboards) →
  ∃ anchors pos neg s',
    sample_card_pairs decks sideboards s = inr (anchors, pos, neg, s') ∧
    length anchors = length (rows decks) ∧
    length pos = length (rows decks) ∧
    length neg = length (rows decks) ∧
    Forall (fun a => (a < ncols decks)%nat) anchors ∧
    Forall (fun a => (a < ncols decks)%nat) pos ∧
    Forall (fun a => (a < ncols decks)%nat) neg.
Proof.
  intros Hc Hsc Hsl Hdr Hsr. unfold sample_card_pairs.
  destruct (get_vectorized_sample_ok decks s Hc Hdr)
    as (anchors & s1 & -> & Hal & Hab). cbn [bind].
  destruct (zero_at_ok decks anchors Hal Hab Hdr)
    as (dwa & -> & Hdc & Hdl & Hdwr). cbn [bind].
  rewrite <- Hsl. rewrite <- Hsc in Hsr, Hab.
  destruct (zero_at_ok sideboards anchors) as (swa & -> & Hwc & Hwl & Hswr);
    [lia|done|done|]. cbn [bind].
  rewrite <- Hdc in Hdwr. rewrite <- Hwc in Hswr.
  destruct (get_vectorized_sample_ok dwa s1) as (pos & s2 & -> & Hpl & Hpb);
    [lia|done|]. cbn [bind].
  destruct (get_vectorized_sample_ok swa s2) as (neg & s3 & -> & Hnl & Hnb);
    [lia|done|]. cbn [bind ret].
  exists anchors, pos, neg, s3. split; [done|].
  rewrite Hsc in Hab. rewrite Hdc in Hpb. rewrite Hwc, Hsc in Hnb.
  repeat split; (done || lia).
Qed.

Lemma select_values_uniform p data :
  well_formed data →
  Forall (fun row => length row = ncols (select_values p data))
         (rows (select_values p data)).
Proof.
  intros [Hwf _]. unfold select_values. cbn [ncols rows].
  apply list.Forall_forall. intros r Hr.
  apply list_elem_of_fmap in Hr as (row & -> & Hrow).
  apply select_row_length. rewrite list.Forall_forall in Hwf. by apply Hwf.
Qed.

Lemma index_rows_inv a ix b :
  index_rows a ix = inr b →
  ncols b = ncols a ∧ length (rows b) = length ix ∧
  (∀ row, row ∈ rows b → row ∈ rows a) ∧
  (∀ j i, ix !! j = Some i → rows b !! j = rows a !! i).
Proof.
  unfold index_rows. intros H. inv_bind H. injection H as <-. cbn [ncols rows].
  split; [done|]. split; [by eapply gather_length|]. split.
  - intros row. by eapply gather_elem_of.
  - intros j i. by eapply gather_lookup.
Qed.

(** X17. On a well-formed dataset, a deck generator built with the basics
    stored, with as many sideboard columns kept as deck columns and at least
    one, produces a batch for any in-range row indices: row [j] of the
    batch is dataset row [indices[j]] (its deck counts, its basic-land
    counts, and deck plus sideboard as the pool), and the anchor,
    positive and negative samples are one valid column index per row. *)
Theorem deck_batch_contents data cards0 bs sh tf eb (s0 s1 : rng)
  (g : DeckGenerator) (indices : list nat) (s : rng)
  (Hinit : DeckGenerator_init data cards0 bs sh tf eb true s0 = inr (g, s1))
  (Hwf : well_formed data)
  (Hix : ∀ i, i ∈ indices → (i < n_rows data)%nat)
  (Hcols : attr_width (deck_base g) "sideboard"
           = attr_width (deck_base g) "deck")
  (Hpos : (0 < attr_width (deck_base g) "deck")%nat) :
  let c := attr_width (deck_base g) "deck" in
  let k := length indices in
  ∃ pools anchors pos neg basics_ decks w s',
    deck_generate_data g indices s
      = inr ((pools, anchors, pos, neg), (basics_, decks), w, s') ∧
    length anchors = k ∧ length pos = k ∧ length neg = k ∧
    Forall (fun a => (a < c)%nat) anchors ∧
    Forall (fun a => (a < c)%nat) pos ∧
    Forall (fun a => (a < c)%nat) neg ∧
    length (rows pools) = k ∧ length (rows decks) = k ∧
    length (rows basics_) = k ∧
    ∀ j i row, indices !! j = Some i → values data !! i = Some row →
      rows decks !! j
        = Some (select_row (keep_col "deck" (exclude_cards eb))
                           (columns data) row) ∧
      rows basics_ !! j
        = Some (select_row (basic_col "deck") (columns data) row) ∧
      rows pools !! j
        = Some (zip_with Z.add
                  (select_row (keep_col "deck" (exclude_cards eb))
                              (columns data) row)
                  (select_row (keep_col "sideboard" (exclude_cards eb))
                              (columns data) row)).
Proof.
  intros c k. subst c k.
  apply deck_init_established in Hinit as Hest.
  destruct Hest as (E & Hsz & Ha & Hw).
  destruct (deck_attrs eb true data) as (Hd & Hs & Hb). rewrite <- Ha in *.
  unfold attr_width in Hcols, Hpos |- *. rewrite Hd in Hpos |- *.
  rewrite Hd, Hs in Hcols.
  pose proof (select_values_uniform (keep_col "deck" (exclude_cards eb))
                data Hwf) as Hdu.
  pose proof (select_values_uniform (keep_col "sideboard" (exclude_cards eb))
                data Hwf) as Hsu.
  pose proof (select_values_rows (keep_col "deck" (exclude_cards eb)) data)
    as Hdl.
  pose proof (select_values_rows (keep_col "sideboard" (exclude_cards eb)) data)
    as Hsl.
  remember (select_values (keep_col "deck" (exclude_cards eb)) data)
    as deck eqn:Hdeck.
  remember (select_values (keep_col "sideboard" (exclude_cards eb)) data)
    as sideboard eqn:Hside.
  unfold deck_generate_data, getattr_array. rewrite Hd, Hs, Hb. cbn [bind ret].
  destruct (index_rows deck indices) as [e|decks] eqn:H1.
  { destruct (index_rows_total deck indices) as (r & Hr & _);
      [intros i Hi; rewrite Hdl; by apply Hix|congruence]. }
  destruct (index_rows sideboard indices) as [e|sideboards] eqn:H2.
  { destruct (index_rows_total sideboard indices) as (r & Hr & _);
      [intros i Hi; rewrite Hsl; by apply Hix|congruence]. }
  destruct (index_rows (select_values (basic_col "deck") data) indices)
    as [e|basics_] eqn:H3.
  { destruct (index_rows_total (select_values (basic_col "deck") data) indices)
      as (r & Hr & _);
      [intros i Hi; rewrite select_values_rows; by apply Hix|congruence]. }
  cbn [bind].
  apply index_rows_inv in H1 as (Hc1 & Hl1 & He1 & Hk1).
  apply index_rows_inv in H2 as (Hc2 & Hl2 & He2 & Hk2).
  apply index_rows_inv in H3 as (Hc3 & Hl3 & He3 & Hk3).
  unfold np_add. rewrite Hc1, Hc2, Hcols, Nat.eqb_refl. cbn [bind ret].
  rewrite Hw.
  destruct (well_formed_weights data indices Hwf Hix) as [w ->]. cbn [bind].
  destruct (sample_card_pairs_ok decks sideboards s)
    as (anchors & pos & neg & s' & -> & Hal & Hpl & Hnl & Hab & Hpb & Hnb).
  { lia. }
  { lia. }
  { lia. }
  { rewrite Hc1. apply list.Forall_forall. intros row Hrow.
    rewrite list.Forall_forall in Hdu. by apply Hdu, He1. }
  { rewrite Hc1, <- Hcols. apply list.Forall_forall. intros row Hrow.
    rewrite list.Forall_forall in Hsu. by apply Hsu, He2. }
  cbn [bind ret]. rewrite Hc1 in Hab, Hpb, Hnb.
  eexists _, anchors, pos, neg, basics_, decks, w, s'.
  split; [reflexivity|]. cbn [rows ncols].
  split; [lia|]. split; [lia|]. split; [lia|].
  split; [exact Hab|]. split; [exact Hpb|]. split; [exact Hnb|].
  split; [rewrite length_zip_with; lia|]. split; [done|]. split; [done|].
  intros j i row Hj Hi.
  rewrite lookup_zip_with, (Hk1 j i Hj), (Hk2 j i Hj), (Hk3 j i Hj).
  rewrite Hdeck, Hside. unfold select_values. cbn [rows].
  rewrite !list_lookup_fmap, Hi. done.
Qed.

Lemma deck_batch_contents_witness :
  ∃ g s1 pools anchors pos neg basics_ decks w s',
    DeckGenerator_init deck_frame cards8 2 true true true true stream0
      = inr (g, s1) ∧
    deck_generate_data g [2; 0]%nat s1
      = inr ((pools, anchors, pos, neg), (basics_, decks), w, s') ∧
    length anchors = 2%nat ∧ length pos = 2%nat ∧ length neg = 2%nat ∧
    Forall (fun a => (a < attr_width (deck_base g) "deck")%nat) anchors ∧
    Forall (fun a => (a < attr_width (deck_base g) "deck")%nat) pos ∧
    Forall (fun a => (a < attr_width (deck_base g) "deck")%nat) neg ∧
    length (rows pools) = 2%nat ∧ length (rows decks) = 2%nat ∧
    length (rows basics_) = 2%nat.
Proof.
  destruct (DeckGenerator_init deck_frame cards8 2 true true true true stream0)
    as [e|[g s1]] eqn:E; [vm_compute in E; discriminate|].
  assert (Hwf : well_formed deck_frame).
  { split; [by_computation|]. intros w Hw. vm_compute in Hw.
    injection Hw as <-. reflexivity. }
  assert (Hix : ∀ i, i ∈ [2; 0]%nat → (i < n_rows deck_frame)%nat).
  { apply (proj1 (list.Forall_forall _ _)). by_computation. }
  assert (Hcols : attr_width (deck_base g) "sideboard"
                  = attr_width (deck_base g) "deck").
  { pose proof E as E0. vm_compute in E0. injection E0 as <- _. reflexivity. }
  assert (Hpos : (0 < attr_width (deck_base g) "deck")%nat).
  { pose proof E as E0. vm_compute in E0. injection E0 as <- _.
    vm_compute. lia. }
  destruct (deck_batch_contents _ _ _ _ _ _ _ _ g [2; 0]%nat s1 E Hwf Hix
              Hcols Hpos)
    as (pools & anchors & pos & neg & basics_ & decks & w & s' & Hgd & H1 & H2
        & H3 & H4 & H5 & H6 & H7 & H8 & H9 & _).
  exists g, s1, pools, anchors, pos, neg, basics_, decks, w, s'.
  split; [reflexivity|]. split; [exact Hgd|].
  split; [exact H1|]. split; [exact H2|]. split; [exact H3|].
  split; [exact H4|]. split; [exact H5|]. split; [exact H6|].
  split; [exact H7|]. split; [exact H8|exact H9].
Defined.

(** ** The factory, continued *)

Lemma construct_deck_cannot_batch data cards0 bs sh tf eb s g s' :
  construct DeckGenerator_class data cards0 bs sh tf eb s = inr (g, s') →
  ∀ batch_number s1, getitem g batch_number s1 = inl AttributeError.
Proof.
  unfold construct. intros H b s1. inv_bind H. destruct a as [dg s2].
  injection H as <- <-.
  apply deck_init_established in Ha as (E & Hsz & Ha & Hw).
  destruct (deck_attrs eb false data) as (Hd & Hs & Hb). rewrite <- Ha in *.
  assert (Hg : getitem dg b s1 = inl AttributeError).
  { destruct dg as [g0]. cbn [deck_base] in *.
    eapply deck_getitem_without_basics; [exact Hd|exact Hs|exact Hb| | |].
    - apply E.
    - rewrite Hsz, select_values_rows. lia.
    - rewrite Hsz, select_values_rows. lia. }
  unfold getitem in *. cbn [generate_data base any_generator_Generator
                            DeckGenerator_Generator any_base] in *.
  destruct (deck_generate_data _ _ s1) as [e|[[[x y] w] s3]] eqn:Hgd.
  - cbn [bind] in *. by injection Hg as ->.
  - cbn [bind ret] in Hg. discriminate.
Qed.

(** X18. A deck generator returned by the factory cannot produce a batch:
    the factory does not pass [store_basics], so every [get_batch] on the
    training generator and on the validation generator raises the
    missing-attribute error. *)
Theorem factory_deck_generators_cannot_batch
  (importance_weighting : DataFrame → list Qc)
  data cards0 id_col train_p weights train_batch_size sh tf eb
  (s s' : rng) (train_gen : any_generator) (val_gen : option any_generator)
  (Hcall : create_train_and_val_gens importance_weighting data cards0 id_col
             train_p weights train_batch_size sh tf eb DeckGenerator_class s
           = inr (train_gen, val_gen, s')) :
  (∀ batch_number s1, getitem train_gen batch_number s1 = inl AttributeError) ∧
  (∀ vg batch_number s1,
     val_gen = Some vg → getitem vg batch_number s1 = inl AttributeError).
Proof.
  unfold create_train_and_val_gens in Hcall.
  inv_bind Hcall. destruct a as [[train_data [test_data|]] s1].
  - inv_bind Hcall. destruct a as [tg s2].
    inv_bind Hcall. rename a into n. inv_bind Hcall. rename a into vbs.
    inv_bind Hcall. destruct a as [vg s3]. injection Hcall as <- <- <-.
    split.
    + by eapply construct_deck_cannot_batch.
    + intros vg' b s4 [= <-]. by eapply construct_deck_cannot_batch.
  - inv_bind Hcall. destruct a as [tg s2]. injection Hcall as <- <- <-.
    split; [by eapply construct_deck_cannot_batch|done].
Qed.

Lemma factory_deck_generators_cannot_batch_witness :
  ∃ train_gen vg s',
    create_train_and_val_gens (fun _ => []) deck_id_frame cards3
      (Some "draft_id") (Q2Qc (1 # 2)) false 1 true true false
      DeckGenerator_class stream0
      = inr (train_gen, Some vg, s') ∧
    getitem train_gen 0 s' = inl AttributeError ∧
    getitem vg 0 s' = inl AttributeError.
Proof.
  destruct (create_train_and_val_gens (fun _ => []) deck_id_frame cards3
              (Some "draft_id") (Q2Qc (1 # 2)) false 1 true true false
              DeckGenerator_class stream0)
    as [e|[[train_gen [vg|]] s']] eqn:E;
    [vm_compute in E; discriminate| |vm_compute in E; discriminate].
  destruct (factory_deck_generators_cannot_batch _ _ _ _ _ _ _ _ _ _ _ _ _ _ E)
    as [H1 H2].
  exists train_gen, vg, s'. split; [reflexivity|].
  split; [apply H1|by apply H2].
Defined.

(** X19. The factory can return only for one of the two subclasses (the
    base class, its default, lacks the [card_col_prefixes] the call does
    not pass) and, when it splits ([train_p < 1]), only with a grouping
    column; it returns a validation generator exactly when it splits. *)
Theorem factory_return_conditions
  (importance_weighting : DataFrame → list Qc)
  data cards0 id_col train_p weights train_batch_size sh tf eb generator
  (s s' : rng) (train_gen : any_generator) (val_gen : option any_generator)
  (Hcall : create_train_and_val_gens importance_weighting data cards0 id_col
             train_p weights train_batch_size sh tf eb generator s
           = inr (train_gen, val_gen, s')) :
  generator ≠ MTGDataGenerator_class ∧
  ((train_p < 1)%Qc → is_Some id_col) ∧
  (is_Some val_gen ↔ (train_p < 1)%Qc).
Proof.
  unfold create_train_and_val_gens in Hcall.
  inv_bind Hcall. destruct a as [[train_data test_data] s1].
  inv_bind Hcall. destruct a as [tg s2].
  split.
  { intros ->. discriminate. }
  unfold split in Ha.
  destruct (decide (train_p < 1)%Qc) as [Hlt|Hge].
  - destruct id_col as [c|].
    + inv_bind Ha. inv_bind Ha. destruct a0 as [train_idxs s3].
      injection Ha as <- <- <-.
      inv_bind Hcall. inv_bind Hcall. inv_bind Hcall. destruct a2 as [vg s4].
      injection Hcall as <- <- <-. split; [by eexists|]. split; [done|by eexists].
    + inv_bind Ha. discriminate.
  - injection Ha as <- <- <-. injection Hcall as <- <- <-.
    split; [done|]. split; [by intros [? ?]|done].
Qed.

Lemma factory_return_conditions_witness :
  ∃ train_gen val_gen s',
    create_train_and_val_gens (fun _ => []) draft_frame cards3
      (Some "draft_id") (Q2Qc (1 # 2)) false 1 true true false
      DraftGenerator_class stream0
      = inr (train_gen, val_gen, s') ∧
    is_Some val_gen.
Proof.
  destruct (create_train_and_val_gens (fun _ => []) draft_frame cards3
              (Some "draft_id") (Q2Qc (1 # 2)) false 1 true true false
              DraftGenerator_class stream0)
    as [e|[[train_gen val_gen] s']] eqn:E; [vm_compute in E; discriminate|].
  destruct (factory_return_conditions _ _ _ _ _ _ _ _ _ _ _ _ _ _ _ E)
    as (_ & _ & Hv).
  exists train_gen, val_gen, s'. split; [reflexivity|].
  apply Hv. by_computation.
Defined.

Lemma mask_select_map {A B} (f : A → B) mask (l : list A) :
  mask_select mask (map f l) = map f (mask_select mask l).
Proof.
  revert l; induction mask as [|b mask IH]; intros [|x l]; simpl; try done.
  destruct b; simpl; by rewrite IH.
Qed.

Lemma mask_select_decide {A} (p : A → bool) (l : list A) x :
  x ∈ mask_select (map p l) l → p x = true.
Proof.
  induction l as [|y l IH]; simpl; [by intros ?%elem_of_nil|].
  destruct (p y) eqn:E; [|done].
  intros [->|H]%elem_of_cons; [done|by apply IH].
Qed.

Lemma mask_select_decide_negb {A} (p : A → bool) (l : list A) x :
  x ∈ mask_select (map negb (map p l)) l → p x = false.
Proof.
  induction l as [|y l IH]; simpl; [by intros ?%elem_of_nil|].
  destruct (p y) eqn:E; simpl; [done|].
  intros [->|H]%elem_of_cons; [done|by apply IH].
Qed.

Lemma mask_select_partition {A} mask (l : list A) :
  length mask = length l →
  mask_select mask l ++ mask_select (map negb mask) l ≡ₚ l.
Proof.
  revert l; induction mask as [|b mask IH]; intros [|x l] H; simpl in *;
    try done.
  injection H as H. destruct b; simpl.
  - by rewrite IH.
  - rewrite <- Permutation_middle. by rewrite IH.
Qed.

Lemma column_filter_rows mask data c col :
  column data c = inr col →
  column (filter_rows mask data) c = inr (mask_select mask col).
Proof.
  unfold column, filter_rows. cbn [columns values].
  destruct (col_index c (columns data)) as [i|]; [|discriminate].
  intros [= <-]. cbn [ret]. by rewrite mask_select_map.
Qed.

Lemma choice_length idxs n s chosen s' :
  choice idxs n s = inr (chosen, s') →
  Z.of_nat (length chosen) = n ∧ ∀ d, d ∈ chosen → d ∈ idxs.
Proof.
  unfold choice. intros H.
  destruct (Z.ltb_spec n 0) as [|Hn0]; [discriminate|].
  destruct (Z.ltb_spec (Z.of_nat (length idxs)) n) as [|Hn1]; [discriminate|].
  cbn [orb] in H.
  pose proof (np_shuffle_perm (seq 0 (length idxs)) s) as Hp.
  destruct (np_shuffle _ s) as [perm s1]. cbn [fst] in Hp.
  inv_bind H. injection H as <- <-. split.
  - apply gather_length in Ha. rewrite Ha, length_take.
    rewrite Hp, length_seq. lia.
  - intros d. by eapply gather_elem_of.
Qed.



(** ** The linear position *)

Lemma foldl_max_ge (l : list Z) : ∀ acc,
  acc ≤ foldl Z.max acc l ∧ ∀ y, y ∈ l → y ≤ foldl Z.max acc l.
Proof.
  induction l as [|x l IH]; intros acc; simpl.
  - split; [lia|]. by intros y ?%elem_of_nil.
  - destruct (IH (Z.max acc x)) as [H1 H2]. split; [lia|].
    intros y [->|Hy]%elem_of_cons; [lia|by apply H2].
Qed.

Lemma series_max_ge l x : x ∈ l → x ≤ default 0 (series_max l).
Proof.
  destruct l as [|y l]; [by intros ?%elem_of_nil|]. simpl.
  destruct (foldl_max_ge l y) as [H1 H2].
  intros [->|Hx]%elem_of_cons; [done|by apply H2].
Qed.

(** A column that survives a column selection holds the same values. *)
Lemma select_row_nth (p : string → bool) c cols i :
  p c = true → col_index c cols = Some i →
  ∃ j, col_index c (filter (fun c => p c = true) cols) = Some j ∧
       ∀ row, nth j (select_row p cols row) 0 = nth i row 0.
Proof.
  intros Hp. revert i; induction cols as [|c' cols IH]; intros i Hi; [done|].
  simpl in Hi. rewrite filter_cons.
  destruct (String.eqb_spec c c') as [<-|Hne].
  - injection Hi as <-. rewrite Hp.
    destruct (decide (true = true)); [|done].
    exists O. simpl. rewrite String.eqb_refl. split; [done|].
    intros [|x row]; simpl; [done|]. by rewrite Hp.
  - destruct (col_index c cols) as [i'|]; [|done]. injection Hi as <-.
    destruct (IH i' eq_refl) as (j & Hj & Hrow).
    destruct (p c') eqn:Hc'.
    + destruct (decide (true = true)); [|done].
      exists (S j). simpl. destruct (String.eqb_spec c c'); [done|].
      rewrite Hj. split; [done|].
      intros [|x row]; simpl; [by destruct j|]. rewrite Hc'. simpl. apply Hrow.
    + destruct (decide (false = true)); [done|].
      exists j. split; [done|].
      intros [|x row]; simpl; [by destruct j|]. rewrite Hc'. apply Hrow.
Qed.

Lemma set_index_icolumn data f c sr :
  set_index data = inr f → icolumn f c = inr sr →
  column data c = inr (svalues sr).
Proof.
  unfold set_index. intros H Hc. inv_bind H. inv_bind H. injection H as <-.
  unfold icolumn in Hc. cbn [icolumns ivalues ikeys] in Hc.
  destruct (col_index c (filter _ _)) as [j|] eqn:Hj; [|discriminate].
  injection Hc as <-. cbn [svalues]. unfold column.
  assert (Hin : c ∈ filter (fun c => is_key c = false) (columns data)).
  { clear -Hj. revert j Hj.
    induction (filter _ _) as [|c' l IH]; intros j Hj; [done|].
    simpl in Hj. destruct (String.eqb_spec c c') as [->|]; [left|].
    destruct (col_index c l); [|done]. right. by eapply IH. }
  apply list_elem_of_filter in Hin as [Hk Hin].
  destruct (col_index_Some c _ Hin) as [i Hi]. rewrite Hi. cbn [ret].
  destruct (select_row_nth (fun c => negb (is_key c)) c (columns data) i)
    as (j' & Hj' & Hrow); [by rewrite Hk|done|].
  rewrite filter_negb_is_key, Hj in Hj'. injection Hj' as <-.
  f_equal. rewrite map_map. apply map_ext. intros row. by rewrite Hrow.
Qed.

(** X21. The stored linear position is
    [pack_number * (max(pick_number) + 1) + pick_number] row by row, and for
    nonnegative pick numbers it determines both: dividing by
    [max(pick_number) + 1] gives back the pack number and the remainder is
    the pick number. *)
Theorem linear_position_decodes data cards0 bs sh tf eb sb (s0 s1 : rng)
  (g : DraftGenerator)
  (Hinit : DraftGenerator_init data cards0 bs sh tf eb sb s0 = inr (g, s1)) :
  ∃ pack pick,
    column data "pack_number" = inr pack ∧
    column data "pick_number" = inr pick ∧
    let m := default 0 (series_max pick) in
    svalues (position g) = zip_with (fun pn pi => pn * (m + 1) + pi) pack pick ∧
    ∀ i pn pi, pack !! i = Some pn → pick !! i = Some pi → 0 ≤ pi →
      ∃ x, svalues (position g) !! i = Some x ∧
           x / (m + 1) = pn ∧ x mod (m + 1) = pi.
Proof.
  apply draft_init_inv in Hinit
    as (_ & at_ & w & ids & t_ & pk & ps & Hggd & _ & _ & _ & _ & _ & Hps & _).
  unfold draft_generate_global_data in Hggd.
  inv_bind Hggd. rename a into dcol, Ha into Hd.
  inv_bind Hggd. rename a into pcol, Ha into Hp.
  inv_bind Hggd. rename a into f, Ha into Hf.
  inv_bind Hggd. rename a into pk0, Ha into Hpk.
  inv_bind Hggd. rename a into pn, Ha into Hpn.
  inv_bind Hggd. rename a into pi, Ha into Hpi.
  injection Hggd as _ _ _ _ _ <-.
  exists (svalues pn), (svalues pi).
  split; [by eapply set_index_icolumn|].
  split; [by eapply set_index_icolumn|].
  intros m. rewrite Hps. cbn [svalues]. split; [done|].
  intros i x y Hx Hy Hy0. eexists. rewrite lookup_zip_with, Hx, Hy.
  split; [done|].
  assert (y ≤ m) by (by eapply series_max_ge, list_elem_of_lookup_2).
  split.
  - rewrite Z.div_add_l by lia. rewrite Z.div_small by lia. lia.
  - rewrite Z.add_comm, Z.mod_add by lia. apply Z.mod_small. lia.
Qed.

Lemma linear_position_decodes_witness :
  ∃ g s1,
    DraftGenerator_init draft_frame cards3 2 true true false false stream0
      = inr (g, s1) ∧
    svalues (position g) = [0; 1; 0; 1; 0; 1; 0; 1].
Proof.
  destruct (DraftGenerator_init draft_frame cards3 2 true true false false stream0)
    as [e|[g s1]] eqn:E; [vm_compute in E; discriminate|].
  destruct (linear_position_decodes _ _ _ _ _ _ _ _ _ _ E)
    as (pack & pick & Hpack & Hpick & Hpos & _).
  exists g, s1. split; [reflexivity|].
  vm_compute in Hpack. injection Hpack as <-.
  vm_compute in Hpick. injection Hpick as <-.
  exact Hpos.
Defined.
